(** * xact: desktop activity monitor

    A shallow embedding of [src/xact.py]: the process command-line cache
    ([cmdline_by_pid]), the window metadata resolver ([EWMH.window_options]
    and the getters it calls), the input aggregator
    ([Activity.update_input_stat], [Activity.flush_input_stat]) and the focus
    tracker ([Activity.process_window], [Activity.handle_window]).

    Python values are modelled as follows.
    - [bytes] is [list byte]; a [str] is held by its UTF-8 encoding as a
      [string], so two [str] are equal exactly when the [string]s are.
    - [int] is [Z]; [None] is [None] of an [option].
    - exceptions are the [Raise] case of [result]; code that writes to module
      globals or to [self] runs in the state-and-exception monad [M].
    - the X server, the window manager and the process table are outside the
      program: each call into them is a field of [XWorld] that says what the
      call returns or raises. *)

From Stdlib Require Import ZArith Lia Strings.Byte.
From stdpp Require Import gmap strings list fin_maps.

(** ** Exceptions and results *)

(** The exception classes the program can meet. [BadWindow] is
    [Xlib.error.BadWindow] (a subclass of [Xlib.error.XError], of which
    [XError] stands for the other members), [NoSuchProcess] stands for the
    errors of [psutil], [UnicodeDecodeError] is raised by [bytes.decode]. *)
Inductive exn : Type :=
  | BadWindow
  | XError
  | TypeError
  | UnicodeDecodeError
  | NoSuchProcess.

#[global] Instance exn_eq_dec : EqDecision exn.
Proof. solve_decision. Defined.

Inductive result (A : Type) : Type :=
  | Ok (a : A)
  | Raise (e : exn).
Arguments Ok {A} a.
Arguments Raise {A} e.

#[global] Instance result_ret : MRet result := λ A a, Ok a.
#[global] Instance result_bind : MBind result := λ A B f r,
  match r with
  | Ok a => f a
  | Raise e => Raise e
  end.

(** [M S A]: a computation over a state [S] that returns an [A] or raises;
    the state changes made before an exception stay. *)
Definition M (S A : Type) : Type := S → result A * S.

#[global] Instance M_ret {S} : MRet (M S) := λ A a s, (Ok a, s).
#[global] Instance M_bind {S} : MBind (M S) := λ A B f m s,
  match m s with
  | (Ok a, s') => f a s'
  | (Raise e, s') => (Raise e, s')
  end.

(** Reading the state. *)
Definition get {S} : M S S := λ s, (Ok s, s).

(** A call that reads the outside world and changes no state. *)
Definition lift {S A} (r : result A) : M S A := λ s, (r, s).

(** [try: body except e: pass] in a function whose last statement it is:
    the function returns [None] when [e] is raised. *)
Definition try_except_pass {S A} (e : exn) (body : M S (option A)) : M S (option A) :=
  λ s, match body s with
       | (Raise e', s') => if decide (e' = e) then (Ok None, s') else (Raise e', s')
       | r => r
       end.

(** ** Bytes and strings *)

Abbreviation bytes := (list byte).

#[global] Instance byte_eq_decision : EqDecision byte := Byte.byte_eq_dec.

(** Truth value of a [bytes] object: false exactly for [b''] . *)
Definition bytes_truthy (v : bytes) : bool :=
  match v with
  | [] => false
  | _ :: _ => true
  end.

Definition in_range (lo hi : N) (b : byte) : bool :=
  ((lo <=? Byte.to_N b) && (Byte.to_N b <=? hi))%N.

Definition continuation : byte → bool := in_range 0x80 0xBF.

(** Well-formed UTF-8 (the strict codec of [bytes.decode('utf-8')]):
    shortest forms only, no surrogates, nothing above U+10FFFF. *)
Fixpoint utf8_valid (bs : bytes) : bool :=
  match bs with
  | [] => true
  | b0 :: r0 =>
      if in_range 0x00 0x7F b0 then utf8_valid r0 else
      match r0 with
      | [] => false
      | b1 :: r1 =>
          if in_range 0xC2 0xDF b0 then continuation b1 && utf8_valid r1 else
          match r1 with
          | [] => false
          | b2 :: r2 =>
              if in_range 0xE0 0xE0 b0 then
                in_range 0xA0 0xBF b1 && continuation b2 && utf8_valid r2
              else if in_range 0xED 0xED b0 then
                in_range 0x80 0x9F b1 && continuation b2 && utf8_valid r2
              else if in_range 0xE1 0xEF b0 then
                continuation b1 && continuation b2 && utf8_valid r2
              else
              match r2 with
              | [] => false
              | b3 :: r3 =>
                  if in_range 0xF0 0xF0 b0 then
                    in_range 0x90 0xBF b1 && continuation b2 && continuation b3
                    && utf8_valid r3
                  else if in_range 0xF1 0xF3 b0 then
                    continuation b1 && continuation b2 && continuation b3
                    && utf8_valid r3
                  else if in_range 0xF4 0xF4 b0 then
                    in_range 0x80 0x8F b1 && continuation b2 && continuation b3
                    && utf8_valid r3
                  else false
              end
          end
      end
  end.

(** [value.decode('utf-8')] *)
Definition decode_utf8 (value : bytes) : result string :=
  if utf8_valid value then Ok (String.string_of_list_byte value)
  else Raise UnicodeDecodeError.

(** [b2s]: [None] for a false value ([None] or [b'']), the decoded text
    otherwise. *)
Definition b2s (value : option bytes) : result (option string) :=
  match value with
  | None => Ok None
  | Some v =>
      if negb (bytes_truthy v) then Ok None
      else s ← decode_utf8 v; Ok (Some s)
  end.

(** [value.split(b'\x00')]: one more segment than there are NUL bytes,
    empty segments kept, [[b'']] for the empty value. *)
Fixpoint split_nul (value : bytes) : list bytes :=
  match value with
  | [] => [[]]
  | b :: rest =>
      if decide (b = x00) then [] :: split_nul rest
      else match split_nul rest with
           | seg :: segs => (b :: seg) :: segs
           | [] => [[b]]
           end
  end.

(** [list(map(f, l))] for an [f] that may raise: the first exception, in
    list order, ends the call. *)
Fixpoint map_raising {A B} (f : A → result B) (l : list A) : result (list B) :=
  match l with
  | [] => Ok []
  | a :: l' => b ← f a; bs ← map_raising f l'; Ok (b :: bs)
  end.

(** ** The outside world *)

(** An [Xlib] window object; [win.id] is its resource id.  Window objects
    compare by id and every window object is true. *)
Record Window : Type := mkWindow { win_id : Z }.

#[global] Instance Window_eq_dec : EqDecision Window.
Proof. solve_decision. Defined.

(** What the calls into [ewmh], [Xlib] and [psutil] return during one
    check.  Every query is a field of its own, so a window may vanish
    between two of them. *)
Record XWorld : Type := mkXWorld {
  (** [self.ewmh.getActiveWindow()] *)
  getActiveWindow : option Window;
  (** [super(EWMH, self).getWmPid(win)]: the first item of the
      [_NET_WM_PID] property, [TypeError] when the property is missing *)
  super_getWmPid : Window → result Z;
  (** [super(EWMH, self).getWmName(win)] *)
  super_getWmName : Window → result (option bytes);
  (** [self.getWmState(win, '_NET_WM_STATE_FULLSCREEN')]: a list of state
      names *)
  getWmState : Window → result (list string);
  (** [self._getProperty('WM_CLASS', win)] *)
  getProperty_WM_CLASS : Window → result (option bytes);
  (** [display.create_resource_object('window', win_id)]: the window
      object, or [None] when the call raises an [Xlib.error.XError] *)
  create_resource_object : Window → option Window;
  (** [psutil.Process(pid).cmdline()] *)
  psutil_cmdline : Z → result (list string);
}.

(** ** Events and module globals *)

(** The dict built by [window_options]; the fields are its keys ['name'],
    ['wid'], ['pid'], ['fullscreen'] and ['class'].  [!=] on two such dicts is
    inequality of the records. *)
Record WindowMetadata : Type := mkWindowMetadata {
  md_name : option string;
  md_wid : Z;
  md_pid : option Z;
  md_fullscreen : bool;
  md_class : list (option string);
}.

#[global] Instance WindowMetadata_eq_dec : EqDecision WindowMetadata.
Proof. solve_decision. Defined.

(** The values stored in the [data] dict of an ['input'] event. *)
Inductive jvalue : Type :=
  | JBool (b : bool)
  | JInt (z : Z)
  | JStats (stats : gmap string Z).

(** The [data] argument of [log], one shape per call site. *)
Inductive payload : Type :=
  | NewPidData (pid : Z) (cmdline : list string)
  | InputData (data : gmap string jvalue)
  | WindowData (details : option WindowMetadata).

(** One line of output: the ['event'] and ['data'] members (['time'] is the
    clock and ['v'] is the constant ['a']). *)
Definition record_line : Type := string * payload.

(** Module-level state: the table kept by [@lru_cache] for
    [cmdline_by_pid], most recently used entry first, and what has been
    written to [sys.stdout], oldest line first. *)
Record Globals : Type := mkGlobals {
  cache : list (Z * list string);
  stdout : list record_line;
}.

Definition set_cache (c : list (Z * list string)) (g : Globals) : Globals :=
  {| cache := c; stdout := stdout g |}.

(** [log(event, data)] *)
Definition log (event : string) (data : payload) : M Globals () :=
  λ g, (Ok (), {| cache := cache g; stdout := stdout g ++ [(event, data)] |}).

(** ** Process metadata cache *)

Definition maxsize : nat := 256.

Fixpoint cache_find (key : Z) (c : list (Z * list string)) : option (list string) :=
  match c with
  | [] => None
  | (k, v) :: c' => if decide (k = key) then Some v else cache_find key c'
  end.

Definition cache_remove (key : Z) (c : list (Z * list string)) : list (Z * list string) :=
  List.filter (λ kv, negb (bool_decide (kv.1 = key))) c.

(** [functools.lru_cache(maxsize=256)] around a function of one argument.
    A hit returns the stored value and moves the entry to the front.  A miss
    calls the function; when it raises nothing is stored, otherwise the result
    goes to the front, taking the place of the least recently used entry
    when the table is full. *)
Definition lru_cache (user_function : Z → M Globals (list string)) (key : Z)
  : M Globals (list string) :=
  λ g, match cache_find key (cache g) with
       | Some v => (Ok v, set_cache ((key, v) :: cache_remove key (cache g)) g)
       | None =>
           match user_function key g with
           | (Ok v, g') =>
               let kept := if decide (maxsize ≤ length (cache g'))
                           then removelast (cache g') else cache g' in
               (Ok v, set_cache ((key, v) :: kept) g')
           | (Raise e, g') => (Raise e, g')
           end
       end.

(** The body of [cmdline_by_pid]. *)
Definition cmdline_by_pid_body (w : XWorld) (pid : Z) : M Globals (list string) :=
  value ← lift (psutil_cmdline w pid);
  log "new-pid" (NewPidData pid value);;
  mret value.

Definition cmdline_by_pid (w : XWorld) : Z → M Globals (list string) :=
  lru_cache (cmdline_by_pid_body w).

(** ** Window metadata resolver: class [EWMH] *)

Definition getWmClass (w : XWorld) (win : Window) : result (list (option string)) :=
  value ← getProperty_WM_CLASS w win;
  let value := match value with
               | Some v => if bytes_truthy v then v else []
               | None => []
               end in
  let value := split_nul value in
  map_raising (λ v, b2s (Some v)) (List.filter bytes_truthy value).

Definition isWmFullscreen (w : XWorld) (win : Window) : result bool :=
  states ← getWmState w win;
  Ok (match states with [] => false | _ :: _ => true end).

Definition getWmName (w : XWorld) (win : Window) : result (option string) :=
  value ← super_getWmName w win;
  b2s value.

Definition getWmPid (w : XWorld) (win : Window) : result (option Z) :=
  match super_getWmPid w win with
  | Ok pid => Ok (Some pid)
  | Raise TypeError => Ok None
  | Raise e => Raise e
  end.

(** Truth value of [pid], an [int] or [None]. *)
Definition pid_truthy (pid : option Z) : option Z :=
  match pid with
  | Some p => if decide (p = 0%Z) then None else Some p
  | None => None
  end.

Definition window_options (w : XWorld) (win : option Window)
  : M Globals (option WindowMetadata) :=
  match win with
  | None => mret None
  | Some win =>
      try_except_pass BadWindow (
        pid ← lift (getWmPid w win);
        match pid_truthy pid with
        | Some p => cmdline_by_pid w p;; mret ()
        | None => mret ()
        end;;
        name ← lift (getWmName w win);
        fullscreen ← lift (isWmFullscreen w win);
        class ← lift (getWmClass w win);
        mret (Some {| md_name := name; md_wid := win_id win; md_pid := pid;
                      md_fullscreen := fullscreen; md_class := class |}))
  end.

(** ** Class [Activity] *)

(** The fields of [self] that the methods read or write ([ewmh] has no
    state of its own; the listeners, the lock and the timer thread are the
    callers of these methods). *)
Record Activity : Type := mkActivity {
  window_details : option WindowMetadata;
  last_window : option Window;
  input_stat : gmap string Z;
  input_flush_interval : Z;
}.

(** [X.NoEventMask] and [X.PropertyChangeMask] *)
Inductive event_mask : Type := NoEventMask | PropertyChangeMask.

(** [win.change_attributes(event_mask=mask)]: a request sent to the X
    server; it has no reply, so the call returns at once. *)
Inductive xrequest : Type :=
  | ChangeAttributes (win : Window) (mask : event_mask).

(** Everything the methods of [Activity] can touch. *)
Record System : Type := mkSystem {
  self : Activity;
  globals : Globals;
  xserver : list xrequest;
}.

Definition set_self (a : Activity) (s : System) : System :=
  {| self := a; globals := globals s; xserver := xserver s |}.

Definition set_window_details (d : option WindowMetadata) : M System () :=
  λ s, (Ok (), set_self {| window_details := d;
                           last_window := last_window (self s);
                           input_stat := input_stat (self s);
                           input_flush_interval := input_flush_interval (self s) |} s).

Definition set_last_window (win : option Window) : M System () :=
  λ s, (Ok (), set_self {| window_details := window_details (self s);
                           last_window := win;
                           input_stat := input_stat (self s);
                           input_flush_interval := input_flush_interval (self s) |} s).

Definition set_input_stat (m : gmap string Z) : M System () :=
  λ s, (Ok (), set_self {| window_details := window_details (self s);
                           last_window := last_window (self s);
                           input_stat := m;
                           input_flush_interval := input_flush_interval (self s) |} s).

(** A module-level function called from a method. *)
Definition on_globals {A} (m : M Globals A) : M System A :=
  λ s, let (r, g) := m (globals s) in
       (r, {| self := self s; globals := g; xserver := xserver s |}).

Definition send (req : xrequest) : M System () :=
  λ s, (Ok (), {| self := self s; globals := globals s;
                  xserver := xserver s ++ [req] |}).

(** [Activity.__init__] *)
Definition Activity__init__ : Activity :=
  {| window_details := None;
     last_window := None;
     input_stat := ∅;
     input_flush_interval := 20 |}.

(** [self.input_stat[key] += 1] on a [defaultdict(int)] *)
Definition update_input_stat (key : string) : M System () :=
  s ← get;
  let stat := input_stat (self s) in
  set_input_stat (<[key := (default 0 (stat !! key) + 1)%Z]> stat).

Definition flush_input_stat (timeout : bool) : M System () :=
  s ← get;
  if decide (input_stat (self s) = ∅) then mret () else
  let data : gmap string jvalue :=
    <["stats" := JStats (input_stat (self s))]>
      (<["timeout" := JBool timeout]> ∅) in
  let data := if timeout
              then <["interval" := JInt (input_flush_interval (self s))]> data
              else data in
  on_globals (log "input" (InputData data));;
  set_input_stat ∅.

Definition on_press : M System () := update_input_stat "press".
Definition on_release : M System () := update_input_stat "release".
Definition on_move : M System () := update_input_stat "move".
Definition on_click : M System () := update_input_stat "click".
Definition on_scroll : M System () := update_input_stat "scroll".

(** The context manager [window_obj]: the value bound by [with ... as win]. *)
Definition window_obj (w : XWorld) (win_id : option Window) : option Window :=
  match win_id with
  | None => None
  | Some i => create_resource_object w i
  end.

Definition handle_window (w : XWorld) (win : option Window) : M System () :=
  details ← on_globals (window_options w win);
  s ← get;
  if decide (details = window_details (self s)) then mret () else
  flush_input_stat false;;
  on_globals (log "active-window" (WindowData details));;
  set_window_details details.

Definition process_window (w : XWorld) : M System () :=
  let active_window := getActiveWindow w in
  s ← get;
  (if decide (active_window = last_window (self s)) then mret () else
     match window_obj w (last_window (self s)) with
     | Some win => send (ChangeAttributes win NoEventMask)
     | None => mret ()
     end;;
     match window_obj w active_window with
     | Some win => send (ChangeAttributes win PropertyChangeMask)
     | None => mret ()
     end);;
  handle_window w active_window;;
  set_last_window active_window.

(** ** Runs *)

(** The state when [Activity().start()] begins: nothing cached, nothing
    written, no request sent. *)
Definition boot : System :=
  {| self := Activity__init__;
     globals := {| cache := []; stdout := [] |};
     xserver := [] |}.

(** What can happen, one at a time: a callback of a listener, a tick of
    the timer thread ([flush_input_stat()] with the default [timeout=True]),
    or a check by [start] (the one before its loop or one after
    [display.next_event()]) in the world as it is then. *)
Inductive stimulus : Type :=
  | Callback (key : string)
  | Tick
  | FocusCheck (w : XWorld).

Definition react (x : stimulus) : M System () :=
  match x with
  | Callback key => update_input_stat key
  | Tick => flush_input_stat true
  | FocusCheck w => process_window w
  end.

(** An exception ends the run: [main] catches [KeyboardInterrupt] only. *)
Fixpoint run (xs : list stimulus) : M System () :=
  match xs with
  | [] => mret ()
  | x :: xs' => react x;; run xs'
  end.

(** The calls of the input aggregator on their own. *)
Inductive agg_call : Type :=
  | CallRecord (key : string)
  | CallFlush (timeout : bool).

Definition agg_step (c : agg_call) : M System () :=
  match c with
  | CallRecord key => update_input_stat key
  | CallFlush timeout => flush_input_stat timeout
  end.

Fixpoint agg_run (cs : list agg_call) : M System () :=
  match cs with
  | [] => mret ()
  | c :: cs' => agg_step c;; agg_run cs'
  end.

(** * Vocabulary of the statements *)

(** ** Runs and output *)

(** The state a computation ends in, whether it returns or raises. *)
Definition exec {S A} (m : M S A) (s : S) : S := (m s).2.

(** The lines written so far. *)
Definition written (s : System) : list record_line := stdout (globals s).

(** ** Input aggregator *)

(** The count that one line of output reports for [key]: the entry of
    [key] in the ['stats'] of an ['input'] event, nothing for a missing
    key or another event. *)
Definition reported (key : string) (line : record_line) : Z :=
  match line with
  | (event, InputData data) =>
      if decide (event = "input") then
        match data !! "stats" with
        | Some (JStats stats) => default 0%Z (stats !! key)
        | _ => 0%Z
        end
      else 0%Z
  | _ => 0%Z
  end.

Definition total_reported (key : string) (out : list record_line) : Z :=
  foldr (λ line acc, (reported key line + acc)%Z) 0%Z out.

(** The count of [key] still in the bank. *)
Definition pending (key : string) (s : System) : Z :=
  default 0%Z (input_stat (self s) !! key).

(** How many of the calls are [record(key)]. *)
Fixpoint recorded (key : string) (cs : list agg_call) : Z :=
  match cs with
  | [] => 0%Z
  | CallRecord k :: cs' => ((if decide (k = key) then 1 else 0) + recorded key cs')%Z
  | CallFlush _ :: cs' => recorded key cs'
  end.

Definition is_record (c : agg_call) : bool :=
  match c with
  | CallRecord _ => true
  | CallFlush _ => false
  end.

(** The ['input'] payload that a flush builds from the bank. *)
Definition input_data (timeout : bool) (a : Activity) : gmap string jvalue :=
  let data := <["stats" := JStats (input_stat a)]> (<["timeout" := JBool timeout]> ∅) in
  if timeout then <["interval" := JInt (input_flush_interval a)]> data else data.

(** ** Cache and resolver *)

(** The table after a fill: the new entry in front, the last entry gone
    when the table was full. *)
Definition filled (pid : Z) (v : list string) (c : list (Z * list string))
  : list (Z * list string) :=
  (pid, v) :: (if decide (maxsize ≤ length c) then removelast c else c).

(** The second statement of the [try] block of [window_options]. *)
Definition discover (w : XWorld) (pid : option Z) : M Globals () :=
  match pid_truthy pid with
  | Some p => cmdline_by_pid w p;; mret ()
  | None => mret ()
  end.

(** What [except Xlib.error.BadWindow: pass] makes of an exception. *)
Definition swallow (e : exn) (g : Globals) : result (option WindowMetadata) * Globals :=
  if decide (e = BadWindow) then (Ok None, g) else (Raise e, g).

(** A line of the ['new-pid'] event. *)
Definition is_new_pid (line : record_line) : Prop :=
  ∃ pid v, line = ("new-pid", NewPidData pid v).

(** ** Focus tracker *)

(** What the flush before an ['active-window'] event writes. *)
Definition flush_lines (a : Activity) : list record_line :=
  if decide (input_stat a = ∅) then []
  else [("input", InputData (input_data false a))].

(** The requests of a check that finds [active] in front. *)
Definition resubscribe (w : XWorld) (active : option Window) (a : Activity)
  : list xrequest :=
  if decide (active = last_window a) then [] else
  match window_obj w (last_window a) with
  | Some win => [ChangeAttributes win NoEventMask]
  | None => []
  end ++
  match window_obj w active with
  | Some win => [ChangeAttributes win PropertyChangeMask]
  | None => []
  end.

(** The payloads of the ['active-window'] events among some lines, in the
    order written. *)
Definition active_window_lines (out : list record_line) : list (option WindowMetadata) :=
  omap (λ line : record_line,
          match line with
          | (event, WindowData d) =>
              if decide (event = "active-window") then Some d else None
          | _ => None
          end) out.

(** What a run guarantees of every ['input'] line written so far. *)
Definition input_line_ok (line : record_line) : Prop :=
  ∀ data, line = ("input", InputData data) →
    ∃ timeout : bool,
      data !! "timeout" = Some (JBool timeout)
      ∧ data !! "interval" = if timeout then Some (JInt 20) else None.

(** A property fetch after the pid step fails with [BadWindow]. *)
Definition later_fetch_fails (w : XWorld) (win : Window) : Prop :=
  getWmName w win = Raise BadWindow
  ∨ (∃ name, getWmName w win = Ok name
             ∧ isWmFullscreen w win = Raise BadWindow)
  ∨ (∃ name fullscreen, getWmName w win = Ok name
                        ∧ isWmFullscreen w win = Ok fullscreen
                        ∧ getWmClass w win = Raise BadWindow).

(** ** Class identifiers *)

(** The fields of a NUL-delimited blob, read left to right: [cur] holds,
    last byte first, the bytes of the field being read; a NUL or the end of
    the blob ends the field, and a field with no bytes is not kept. *)
Fixpoint nul_fields_from (cur : bytes) (blob : bytes) : list bytes :=
  match blob with
  | [] => match cur with [] => [] | _ :: _ => [rev cur] end
  | b :: rest =>
      if decide (b = x00)
      then match cur with [] => [] | _ :: _ => [rev cur] end ++ nul_fields_from [] rest
      else nul_fields_from (b :: cur) rest
  end.

Definition nul_fields (blob : bytes) : list bytes := nul_fields_from [] blob.

(** ** Cache lifetime of a pid *)

(** The pids in the table, most recently used first. *)
Definition keys (c : list (Z * list string)) : list Z := c.*1.

(** One call [cmdline_by_pid(pid)] in the world [w]. *)
Definition resolve (call : XWorld * Z) : M Globals (list string) :=
  cmdline_by_pid call.1 call.2.

(** A sequence of calls, each in the world of its time; a call that raises
    does not stop the later ones. *)
Fixpoint resolve_all (calls : list (XWorld * Z)) (g : Globals) : Globals :=
  match calls with
  | [] => g
  | call :: calls' => resolve_all calls' (exec (resolve call) g)
  end.

(** The pid that a call pushes out of the table: the least recently used
    one, when the call fills a full table. *)
Definition evicted_by (call : XWorld * Z) (g : Globals) : option Z :=
  match cache_find call.2 (cache g), psutil_cmdline call.1 call.2 with
  | None, Ok _ =>
      if decide (maxsize ≤ length (cache g)) then last (keys (cache g)) else None
  | _, _ => None
  end.

Fixpoint evictions (calls : list (XWorld * Z)) (g : Globals) : list Z :=
  match calls with
  | [] => []
  | call :: calls' =>
      option_list (evicted_by call g) ++ evictions calls' (exec (resolve call) g)
  end.

Definition names_pid (pid : Z) (line : record_line) : bool :=
  match line with
  | (event, NewPidData p _) => bool_decide (event = "new-pid") && bool_decide (p = pid)
  | _ => false
  end.

(** How many ['new-pid'] lines name [pid]. *)
Definition new_pid_count (pid : Z) (out : list record_line) : nat :=
  length (List.filter (names_pid pid) out).

Definition occurrences (pid : Z) (l : list Z) : nat :=
  length (List.filter (λ k, bool_decide (k = pid)) l).

Definition one_if (P : Prop) `{Decision P} : nat := if decide P then 1 else 0.

Definition empty_globals : Globals := {| cache := []; stdout := [] |}.

(** The table has no pid twice and never more than [maxsize] entries. *)
Definition cache_ok (g : Globals) : Prop :=
  NoDup (keys (cache g)) ∧ length (cache g) ≤ maxsize.

(** ** Scenarios *)

Definition bytes_of (s : string) : bytes := String.list_byte_of_string s.

(** No window has the focus. *)
Definition no_window : XWorld :=
  {| getActiveWindow := None;
     super_getWmPid := λ _, Raise BadWindow;
     super_getWmName := λ _, Raise BadWindow;
     getWmState := λ _, Raise BadWindow;
     getProperty_WM_CLASS := λ _, Raise BadWindow;
     create_resource_object := λ _, None;
     psutil_cmdline := λ _, Raise NoSuchProcess |}.

(** Window 7 of an editor, process 100, has the focus. *)
Definition editor : XWorld :=
  {| getActiveWindow := Some (mkWindow 7);
     super_getWmPid := λ _, Ok 100%Z;
     super_getWmName := λ _, Ok (Some (bytes_of "Editor"));
     getWmState := λ _, Ok [];
     getProperty_WM_CLASS := λ _, Ok (Some (bytes_of "editor" ++ [x00]
                                            ++ bytes_of "Editor" ++ [x00]));
     create_resource_object := λ win, Some win;
     psutil_cmdline := λ _, Ok ["vim"] |}.

Definition editor_details : WindowMetadata :=
  {| md_name := Some "Editor"; md_wid := 7; md_pid := Some 100%Z;
     md_fullscreen := false; md_class := [Some "editor"; Some "Editor"] |}.

(** The same window, closed after its pid was read. *)
Definition closing : XWorld :=
  {| getActiveWindow := Some (mkWindow 7);
     super_getWmPid := λ _, Ok 100%Z;
     super_getWmName := λ _, Raise BadWindow;
     getWmState := λ _, Raise BadWindow;
     getProperty_WM_CLASS := λ _, Raise BadWindow;
     create_resource_object := λ win, Some win;
     psutil_cmdline := λ _, Ok ["vim"] |}.

(** A window that is gone before the first query; [gone 7] and [gone 8]
    differ in the handle only. *)
Definition gone (wid : Z) : XWorld :=
  {| getActiveWindow := Some (mkWindow wid);
     super_getWmPid := λ _, Raise BadWindow;
     super_getWmName := λ _, Raise BadWindow;
     getWmState := λ _, Raise BadWindow;
     getProperty_WM_CLASS := λ _, Raise BadWindow;
     create_resource_object := λ win, Some win;
     psutil_cmdline := λ _, Raise NoSuchProcess |}.

(** Window 7 still names process 4242, which has exited. *)
Definition stale_pid : XWorld :=
  {| getActiveWindow := Some (mkWindow 7);
     super_getWmPid := λ _, Ok 4242%Z;
     super_getWmName := λ _, Ok (Some (bytes_of "Editor"));
     getWmState := λ _, Ok [];
     getProperty_WM_CLASS := λ _, Ok (Some (bytes_of "editor" ++ [x00]
                                            ++ bytes_of "Editor" ++ [x00]));
     create_resource_object := λ win, Some win;
     psutil_cmdline := λ _, Raise NoSuchProcess |}.

(** The same window without the [_NET_WM_PID] property. *)
Definition no_pid : XWorld :=
  {| getActiveWindow := Some (mkWindow 7);
     super_getWmPid := λ _, Raise TypeError;
     super_getWmName := λ _, Ok (Some (bytes_of "Editor"));
     getWmState := λ _, Ok [];
     getProperty_WM_CLASS := λ _, Ok (Some (bytes_of "editor" ++ [x00]
                                            ++ bytes_of "Editor" ++ [x00]));
     create_resource_object := λ win, Some win;
     psutil_cmdline := λ _, Raise NoSuchProcess |}.

(** Pids 1 to 257, each resolved once while its process runs. *)
Definition calls_257 : list (XWorld * Z) :=
  (λ n : nat, (editor, Z.of_nat n)) <$> seq 1 257.

(** Five key presses and then the timer. *)
Definition five_presses : list stimulus :=
  [Callback "press"; Callback "press"; Callback "press"; Callback "press";
   Callback "press"; Tick].

Definition five_presses_data : gmap string jvalue :=
  <["interval" := JInt 20]>
    (<["stats" := JStats {["press" := 5%Z]}]> (<["timeout" := JBool true]> ∅)).

(** * Vocabulary of the further statements *)

(** ** Input aggregator in a run *)

(** How many of the stimuli are the callback for [key]. *)
Fixpoint callbacks (key : string) (xs : list stimulus) : Z :=
  match xs with
  | [] => 0%Z
  | Callback k :: xs' => ((if decide (k = key) then 1 else 0) + callbacks key xs')%Z
  | _ :: xs' => callbacks key xs'
  end.



(** ** Focus tracker in a run *)

(** No payload in the list repeats the one before it; [prev] is the one
    before the first. *)
Fixpoint no_repeat (prev : option WindowMetadata) (l : list (option WindowMetadata))
  : Prop :=
  match l with
  | [] => True
  | d :: l' => d ≠ prev ∧ no_repeat d l'
  end.

(** The payload of the latest ['active-window'] line, [None] before the
    first. *)
Definition latest_payload (l : list (option WindowMetadata)) : option WindowMetadata :=
  default None (last l).

(** A ['new-pid'] line for [p] is among the lines. *)
Definition announced (p : Z) (out : list record_line) : Prop :=
  ∃ v, ("new-pid", NewPidData p v) ∈ out.

(** Every cached pid has had its ['new-pid'] line. *)
Definition cache_announced (g : Globals) : Prop :=
  ∀ p, p ∈ keys (cache g) → announced p (stdout g).

(** Every non-zero pid of an ['active-window'] line has a ['new-pid'] line
    before that line. *)
Definition pids_announced (out : list record_line) : Prop :=
  ∀ i md p,
    out !! i = Some ("active-window", WindowData (Some md)) →
    md_pid md = Some p → p ≠ 0%Z →
    announced p (take i out).

(** The event mask of [win] at the X server after the requests [reqs],
    when it was [init] before them: the mask of the last request for [win]. *)
Fixpoint mask_after (reqs : list xrequest) (init : event_mask) (win : Window)
  : event_mask :=
  match reqs with
  | [] => init
  | ChangeAttributes win' mask :: reqs' =>
      mask_after reqs' (if decide (win' = win) then mask else init) win
  end.

(** At startup no window is selected for events. *)
Definition mask_of (reqs : list xrequest) (win : Window) : event_mask :=
  mask_after reqs NoEventMask win.

(** ** Further scenarios *)

(** Window 7 has the focus; it has no [_NET_WM_PID], the name [name] and
    the class property [class]. *)
Definition titled (name : bytes) (class : bytes) : XWorld :=
  {| getActiveWindow := Some (mkWindow 7);
     super_getWmPid := λ _, Raise TypeError;
     super_getWmName := λ _, Ok (Some name);
     getWmState := λ _, Ok [];
     getProperty_WM_CLASS := λ _, Ok (Some class);
     create_resource_object := λ win, Some win;
     psutil_cmdline := λ _, Raise NoSuchProcess |}.

(** The name is the single byte E9, text in Latin-1 and not UTF-8. *)
Definition latin1_title : XWorld := titled [xe9] (bytes_of "editor").

(** The class property holds two NUL bytes and nothing else. *)
Definition nul_class : XWorld := titled (bytes_of "Editor") [x00; x00].

(** A key press, then the editor gets the focus. *)
Definition press_then_focus : list stimulus :=
  [Callback "press"; FocusCheck editor].

(** The editor gets the focus, a key is pressed, the focus goes to a
    window that is closed at once. *)
Definition focus_moves : list stimulus :=
  [FocusCheck editor; Callback "press"; FocusCheck (gone 8)].

(** Pids 1 to 256, each resolved once while its process runs. *)
Definition calls_256 : list (XWorld * Z) :=
  (λ n : nat, (editor, Z.of_nat n)) <$> seq 1 256.

(** ** UTF-8, from the standard *)

(** The byte with value [n] (for [n] below 256). *)
Definition byte_of (n : N) : byte := default x00 (Byte.of_N n).

(** A Unicode scalar value: a code point up to U+10FFFF that is not a
    surrogate. *)
Definition scalar (cp : N) : Prop :=
  (cp < 0xD800 ∨ (0xDFFF < cp ∧ cp < 0x110000))%N.

(** The UTF-8 encoding of one code point: one byte below U+0080, two below
    U+0800, three below U+10000, four from there on; the first byte tells the
    length, the others carry six bits each. *)
Definition encode_code_point (cp : N) : bytes :=
  if (cp <? 0x80)%N then
    [byte_of cp]
  else if (cp <? 0x800)%N then
    [byte_of (0xC0 + cp / 64); byte_of (0x80 + cp mod 64)]
  else if (cp <? 0x10000)%N then
    [byte_of (0xE0 + cp / 4096); byte_of (0x80 + (cp / 64) mod 64);
     byte_of (0x80 + cp mod 64)]
  else
    [byte_of (0xF0 + cp / 262144); byte_of (0x80 + (cp / 4096) mod 64);
     byte_of (0x80 + (cp / 64) mod 64); byte_of (0x80 + cp mod 64)].

Definition utf8_encode (cps : list N) : bytes :=
  concat (encode_code_point <$> cps).

(** The [str] with the code points [cps], held by its encoding. *)
Definition str_of_code_points (cps : list N) : string :=
  String.string_of_list_byte (utf8_encode cps).

(** [seg] is the UTF-8 encoding of some text. *)
Definition is_utf8 (seg : bytes) : Prop :=
  ∃ cps, Forall scalar cps ∧ seg = utf8_encode cps.

(** ** Least recently used, from the history of calls *)

(** The pids of calls in the order of their last use, latest first: each
    pid once, at the place of its last call. *)
Definition by_last_use (pids : list Z) : list Z := reverse (remove_dups pids).

(** The pids that a table of [maxsize] entries holds after the calls
    [pids], under least-recently-used replacement: the [maxsize] most
    recently used ones. *)
Definition most_recent (pids : list Z) : list Z := take maxsize (by_last_use pids).

(** The pid that call number [i] (from 0) of [pids] pushes out under
    least-recently-used replacement.  A call for one of the [maxsize] pids
    used last before it pushes out nothing; another call pushes out the pid
    that is at place [maxsize] in the order of last use, if there is one. *)
Definition lru_evicted_at (pids : list Z) (i : nat) : option Z :=
  match pids !! i with
  | None => None
  | Some p =>
      let order := by_last_use (take i pids) in
      if decide (p ∈ take maxsize order) then None
      else order !! (maxsize - 1)
  end.

Definition lru_evictions (pids : list Z) : list Z :=
  omap (lru_evicted_at pids) (seq 0 (length pids)).

(** [p] moved to the front of an order of use. *)
Definition touch (p : Z) (order : list Z) : list Z :=
  p :: filter (λ k, k ≠ p) order.

(** What [lru_evictions] says of the calls [pids] made after calls whose
    order of last use is [order]. *)
Fixpoint lru_evictions_from (order : list Z) (pids : list Z) : list Z :=
  match pids with
  | [] => []
  | p :: pids' =>
      option_list (if decide (p ∈ take maxsize order) then None
                   else order !! (maxsize - 1))
      ++ lru_evictions_from (touch p order) pids'
  end.

(** Pids 1 to 256 resolved in turn, then pid 1 again, then pid 257. *)
Definition refresh_calls : list (XWorld * Z) :=
  (λ n : nat, (editor, Z.of_nat n)) <$> (seq 1 256 ++ [1; 257]).

(** The class property holds the fields [café] (the last letter in two
    bytes) and [X], with an empty field between them. *)
Definition cafe_class : XWorld :=
  titled (bytes_of "Editor") [x63; x61; x66; xc3; xa9; x00; x00; x58; x00].

(** The class property holds the fields [a] and the single byte E9. *)
Definition latin1_class : XWorld :=
  titled (bytes_of "Editor") [x61; x00; xe9].

(** ** The start of [Activity.start] *)

(** The state when [start] makes its first check: it has asked the X
    server for the property events of the root window [root]
    ([root.change_attributes(event_mask=X.PropertyChangeMask)]); the timer and
    the listeners it has started act through the stimuli of a run. *)
Definition started (root : Window) : System :=
  {| self := Activity__init__;
     globals := {| cache := []; stdout := [] |};
     xserver := [ChangeAttributes root PropertyChangeMask] |}.


(** * Proofs *)

Ltac unfold_monad :=
  unfold exec, written, mbind, M_bind, mret, M_ret, get, lift, on_globals, log,
    set_input_stat, set_window_details, set_last_window, set_self, send in *.

Ltac list_membership :=
  rewrite ?elem_of_app, ?elem_of_cons, ?elem_of_nil in *; intuition congruence.

(** ** Input aggregator *)

Lemma total_reported_app key out1 out2 :
  total_reported key (out1 ++ out2)
  = (total_reported key out1 + total_reported key out2)%Z.
Proof.
  induction out1 as [|line out1 IH]; simpl; [done|]. rewrite IH. lia.
Qed.

Lemma update_input_stat_spec key s :
  update_input_stat key s
  = (Ok (), set_self {| window_details := window_details (self s);
                        last_window := last_window (self s);
                        input_stat := <[key := (pending key s + 1)%Z]> (input_stat (self s));
                        input_flush_interval := input_flush_interval (self s) |} s).
Proof. reflexivity. Qed.

Lemma flush_input_stat_empty timeout s :
  input_stat (self s) = ∅ → flush_input_stat timeout s = (Ok (), s).
Proof.
  intros Hempty. unfold flush_input_stat. unfold_monad.
  by rewrite decide_True.
Qed.

Lemma flush_input_stat_nonempty timeout s :
  input_stat (self s) ≠ ∅ →
  flush_input_stat timeout s
  = (Ok (), {| self := {| window_details := window_details (self s);
                          last_window := last_window (self s);
                          input_stat := ∅;
                          input_flush_interval := input_flush_interval (self s) |};
               globals := {| cache := cache (globals s);
                             stdout := stdout (globals s)
                                       ++ [("input", InputData (input_data timeout (self s)))] |};
               xserver := xserver s |}).
Proof.
  intros Hne. unfold flush_input_stat. unfold_monad.
  rewrite decide_False by done. by destruct timeout.
Qed.

Lemma input_data_stats timeout a :
  input_data timeout a !! "stats" = Some (JStats (input_stat a)).
Proof. unfold input_data. destruct timeout; by simplify_map_eq. Qed.

Lemma input_data_timeout timeout a :
  input_data timeout a !! "timeout" = Some (JBool timeout).
Proof. unfold input_data. destruct timeout; by simplify_map_eq. Qed.

Lemma input_data_interval timeout a :
  input_data timeout a !! "interval"
  = if timeout then Some (JInt (input_flush_interval a)) else None.
Proof. unfold input_data. destruct timeout; by simplify_map_eq. Qed.

Lemma agg_step_ok c s : (agg_step c s).1 = Ok ().
Proof.
  destruct c as [key|timeout]; simpl; [done|].
  destruct (decide (input_stat (self s) = ∅)) as [He|Hne].
  - by rewrite flush_input_stat_empty.
  - by rewrite flush_input_stat_nonempty.
Qed.

Lemma agg_run_cons c cs s :
  exec (agg_run (c :: cs)) s = exec (agg_run cs) (exec (agg_step c) s).
Proof.
  unfold exec. simpl. unfold mbind, M_bind.
  pose proof (agg_step_ok c s) as Hok.
  destruct (agg_step c s) as [[[]|e] s']; simpl in *; done.
Qed.

Lemma agg_run_app cs1 cs2 s :
  exec (agg_run (cs1 ++ cs2)) s = exec (agg_run cs2) (exec (agg_run cs1) s).
Proof.
  revert s. induction cs1 as [|c cs1 IH]; intros s; [done|].
  rewrite <- app_comm_cons, !agg_run_cons. apply IH.
Qed.

(** One call keeps the balance: what is reported plus what is pending
    grows by one for [record(key)] and not at all otherwise. *)
Lemma agg_step_balance key c s :
  (total_reported key (written (exec (agg_step c) s)) + pending key (exec (agg_step c) s)
   = total_reported key (written s) + pending key s + recorded key [c])%Z.
Proof.
  destruct c as [k|timeout]; simpl.
  - unfold exec. rewrite update_input_stat_spec. unfold written, pending. simpl.
    destruct (decide (k = key)) as [->|Hne].
    + rewrite lookup_insert_eq. simpl. unfold pending. lia.
    + rewrite lookup_insert_ne by done. lia.
  - unfold exec. destruct (decide (input_stat (self s) = ∅)) as [He|Hne].
    + rewrite flush_input_stat_empty by done. simpl. lia.
    + rewrite flush_input_stat_nonempty by done. unfold written, pending. simpl.
      rewrite total_reported_app. simpl.
      rewrite input_data_stats, lookup_empty. simpl. lia.
Qed.

Lemma agg_run_balance key cs s :
  (total_reported key (written (exec (agg_run cs) s)) + pending key (exec (agg_run cs) s)
   = total_reported key (written s) + pending key s + recorded key cs)%Z.
Proof.
  revert s. induction cs as [|c cs IH]; intros s.
  - unfold exec. simpl. lia.
  - rewrite agg_run_cons, IH, agg_step_balance. simpl.
    destruct c; lia.
Qed.

Lemma flush_pending key timeout s : pending key (exec (flush_input_stat timeout) s) = 0%Z.
Proof.
  unfold exec, pending. destruct (decide (input_stat (self s) = ∅)) as [He|Hne].
  - rewrite flush_input_stat_empty by done. simpl. by rewrite He, lookup_empty.
  - rewrite flush_input_stat_nonempty by done. simpl. by rewrite lookup_empty.
Qed.

Lemma records_write_nothing cs s :
  forallb is_record cs = true → written (exec (agg_run cs) s) = written s.
Proof.
  revert s. induction cs as [|[key|timeout] cs IH]; intros s Hrec; simpl in Hrec; try done.
  rewrite agg_run_cons, IH by done. reflexivity.
Qed.

(** C1. Conservation of counts.  Run any sequence of [record] and [flush]
    calls from the start state.  For every kind, the counts reported by the
    ['input'] events written so far plus the count still in the bank is the
    number of [record] calls for that kind; and once a flush has run, with
    only [record] calls after it, the reported counts add up to the number of
    [record] calls made before that flush. *)
Theorem record_flush_conservation (key : string) :
  (∀ cs, let s := exec (agg_run cs) boot in
     (total_reported key (written s) + pending key s = recorded key cs)%Z)
  ∧ (∀ cs timeout cs', forallb is_record cs' = true →
       total_reported key (written (exec (agg_run (cs ++ CallFlush timeout :: cs')) boot))
       = recorded key cs).
Proof.
  split.
  - intros cs. simpl. rewrite agg_run_balance. unfold pending. simpl.
    rewrite lookup_empty. simpl. lia.
  - intros cs timeout cs' Hrec.
    rewrite agg_run_app, agg_run_cons, records_write_nothing by done.
    pose proof (agg_run_balance key cs boot) as Hcs.
    pose proof (agg_step_balance key (CallFlush timeout) (exec (agg_run cs) boot)) as Hfl.
    simpl in Hfl. rewrite flush_pending in Hfl.
    unfold pending at 2 in Hcs. simpl in Hcs. rewrite lookup_empty in Hcs.
    simpl in *. lia.
Qed.

Lemma record_flush_conservation_witness :
  forallb is_record [CallRecord "press"] = true
  ∧ total_reported "press"
      (written (exec (agg_run ([CallRecord "press"; CallRecord "move"; CallRecord "press"]
                               ++ CallFlush true :: [CallRecord "press"])) boot))
    = 2%Z.
Proof.
  split; [reflexivity|].
  exact (proj2 (record_flush_conservation "press")
           [CallRecord "press"; CallRecord "move"; CallRecord "press"] true
           [CallRecord "press"] eq_refl).
Defined.

(** C5. A flush of an empty bank, with either value of [timeout], returns
    without writing anything and leaves the whole state as it was. *)
Theorem flush_empty_bank_is_noop (s : System) :
  input_stat (self s) = ∅ →
  ∀ timeout, flush_input_stat timeout s = (Ok (), s).
Proof. intros Hempty timeout. by apply flush_input_stat_empty. Qed.

Lemma flush_empty_bank_is_noop_witness :
  input_stat (self boot) = ∅
  ∧ flush_input_stat true boot = (Ok (), boot)
  ∧ flush_input_stat false boot = (Ok (), boot).
Proof.
  split; [reflexivity|].
  split; apply (flush_empty_bank_is_noop boot); reflexivity.
Defined.

(** ** Process metadata cache: one call *)

Lemma cmdline_by_pid_hit w pid g v :
  cache_find pid (cache g) = Some v →
  cmdline_by_pid w pid g
  = (Ok v, set_cache ((pid, v) :: cache_remove pid (cache g)) g).
Proof. intros Hfind. unfold cmdline_by_pid, lru_cache. by rewrite Hfind. Qed.

Lemma cmdline_by_pid_miss_raise w pid g e :
  cache_find pid (cache g) = None →
  psutil_cmdline w pid = Raise e →
  cmdline_by_pid w pid g = (Raise e, g).
Proof.
  intros Hfind Hps. unfold cmdline_by_pid, lru_cache, cmdline_by_pid_body.
  rewrite Hfind. unfold_monad. by rewrite Hps.
Qed.

Lemma cmdline_by_pid_miss_fill w pid g v :
  cache_find pid (cache g) = None →
  psutil_cmdline w pid = Ok v →
  cmdline_by_pid w pid g
  = (Ok v, {| cache := filled pid v (cache g);
              stdout := stdout g ++ [("new-pid", NewPidData pid v)] |}).
Proof.
  intros Hfind Hps. unfold cmdline_by_pid, lru_cache, cmdline_by_pid_body.
  rewrite Hfind. unfold_monad. by rewrite Hps.
Qed.

(** ** Window metadata resolver *)

(** [window_options] statement by statement. *)
Lemma window_options_steps w win g :
  window_options w (Some win) g
  = match getWmPid w win with
    | Raise e => swallow e g
    | Ok pid =>
        match discover w pid g with
        | (Raise e, g1) => swallow e g1
        | (Ok _, g1) =>
            match getWmName w win with
            | Raise e => swallow e g1
            | Ok name =>
                match isWmFullscreen w win with
                | Raise e => swallow e g1
                | Ok fullscreen =>
                    match getWmClass w win with
                    | Raise e => swallow e g1
                    | Ok class =>
                        (Ok (Some {| md_name := name; md_wid := win_id win;
                                     md_pid := pid; md_fullscreen := fullscreen;
                                     md_class := class |}), g1)
                    end
                end
            end
        end
    end.
Proof.
  unfold window_options, try_except_pass, swallow, discover. unfold_monad.
  destruct (getWmPid w win) as [pid|e]; [|done].
  destruct (pid_truthy pid) as [p|].
  - destruct (cmdline_by_pid w p g) as [[v|e] g1]; [|done].
    destruct (getWmName w win) as [name|e]; [|done].
    destruct (isWmFullscreen w win) as [fs|e]; [|done].
    destruct (getWmClass w win) as [cls|e]; done.
  - destruct (getWmName w win) as [name|e]; [|done].
    destruct (isWmFullscreen w win) as [fs|e]; [|done].
    destruct (getWmClass w win) as [cls|e]; done.
Qed.

Lemma discover_stdout w pid g :
  ∃ l, stdout (discover w pid g).2 = stdout g ++ l ∧ Forall is_new_pid l.
Proof.
  unfold discover. destruct (pid_truthy pid) as [p|]; simpl.
  - unfold mbind, M_bind, mret, M_ret.
    destruct (cache_find p (cache g)) as [v|] eqn:Hfind.
    + rewrite (cmdline_by_pid_hit _ _ _ _ Hfind). simpl.
      exists []. by rewrite app_nil_r.
    + destruct (psutil_cmdline w p) as [v|e] eqn:Hps.
      * rewrite (cmdline_by_pid_miss_fill _ _ _ _ Hfind Hps). simpl.
        eexists; split; [done|]. repeat constructor. by exists p, v.
      * rewrite (cmdline_by_pid_miss_raise _ _ _ _ Hfind Hps). simpl.
        exists []. by rewrite app_nil_r.
  - exists []. by rewrite app_nil_r.
Qed.

Lemma swallow_state e g : (swallow e g).2 = g.
Proof. unfold swallow. by case_decide. Qed.

Lemma window_options_state w win g :
  (window_options w (Some win) g).2
  = match getWmPid w win with
    | Raise _ => g
    | Ok pid => (discover w pid g).2
    end.
Proof.
  rewrite window_options_steps.
  destruct (getWmPid w win) as [pid|e]; [|apply swallow_state].
  destruct (discover w pid g) as [[[]|e] g1]; [|apply swallow_state].
  destruct (getWmName w win) as [name|e]; [|apply swallow_state].
  destruct (isWmFullscreen w win) as [fs|e]; [|apply swallow_state].
  destruct (getWmClass w win) as [cls|e]; [done|apply swallow_state].
Qed.

Lemma window_options_stdout w win g :
  ∃ l, stdout (window_options w win g).2 = stdout g ++ l ∧ Forall is_new_pid l.
Proof.
  destruct win as [win|]; [|exists []; by rewrite app_nil_r].
  rewrite window_options_state.
  destruct (getWmPid w win) as [pid|e]; [apply discover_stdout|].
  exists []. by rewrite app_nil_r.
Qed.

Lemma swallow_not_BadWindow e g : (swallow e g).1 ≠ Raise BadWindow.
Proof. unfold swallow. case_decide; simpl; congruence. Qed.

Lemma window_options_not_BadWindow w win g :
  (window_options w win g).1 ≠ Raise BadWindow.
Proof.
  destruct win as [win|]; [|done].
  rewrite window_options_steps.
  destruct (getWmPid w win) as [pid|e]; [|apply swallow_not_BadWindow].
  destruct (discover w pid g) as [[[]|e] g1]; [|apply swallow_not_BadWindow].
  destruct (getWmName w win) as [name|e]; [|apply swallow_not_BadWindow].
  destruct (isWmFullscreen w win) as [fs|e]; [|apply swallow_not_BadWindow].
  destruct (getWmClass w win) as [cls|e]; [done|apply swallow_not_BadWindow].
Qed.

(** ** Focus tracker *)

Lemma handle_window_spec w win s :
  handle_window w win s
  = match window_options w win (globals s) with
    | (Raise e, g) => (Raise e, {| self := self s; globals := g; xserver := xserver s |})
    | (Ok d, g) =>
        if decide (d = window_details (self s))
        then (Ok (), {| self := self s; globals := g; xserver := xserver s |})
        else (Ok (),
              {| self := {| window_details := d;
                            last_window := last_window (self s);
                            input_stat := ∅;
                            input_flush_interval := input_flush_interval (self s) |};
                 globals := {| cache := cache g;
                               stdout := stdout g ++ flush_lines (self s)
                                         ++ [("active-window", WindowData d)] |};
                 xserver := xserver s |})
    end.
Proof.
  destruct (window_options w win (globals s)) as [[d|e] g] eqn:Hwo;
    unfold handle_window, mbind, M_bind, on_globals, get; rewrite Hwo; [|done].
  cbn [self window_details].
  case_decide; [done|].
  unfold flush_lines. cbn [self globals].
  destruct (decide (input_stat (self s) = ∅)) as [He|Hne].
  - rewrite flush_input_stat_empty by done.
    unfold_monad. simpl. by rewrite He.
  - rewrite flush_input_stat_nonempty by done.
    unfold_monad. simpl. by rewrite <- app_assoc.
Qed.

Lemma process_window_spec w s :
  process_window w s
  = let active := getActiveWindow w in
    let xs := xserver s ++ resubscribe w active (self s) in
    match window_options w active (globals s) with
    | (Raise e, g) => (Raise e, {| self := self s; globals := g; xserver := xs |})
    | (Ok d, g) =>
        if decide (d = window_details (self s))
        then (Ok (), {| self := {| window_details := window_details (self s);
                                   last_window := active;
                                   input_stat := input_stat (self s);
                                   input_flush_interval := input_flush_interval (self s) |};
                        globals := g; xserver := xs |})
        else (Ok (),
              {| self := {| window_details := d;
                            last_window := active;
                            input_stat := ∅;
                            input_flush_interval := input_flush_interval (self s) |};
                 globals := {| cache := cache g;
                               stdout := stdout g ++ flush_lines (self s)
                                         ++ [("active-window", WindowData d)] |};
                 xserver := xs |})
    end.
Proof.
  unfold process_window, resubscribe.
  cbv zeta. set (active := getActiveWindow w).
  unfold mbind, M_bind, get, mret, M_ret, send, set_last_window, set_self.
  destruct (decide (active = last_window (self s))) as [Heq|Hne];
    [|destruct (window_obj w (last_window (self s))),
               (window_obj w active)];
    rewrite handle_window_spec; cbn [self globals xserver];
    (destruct (window_options w active (globals s)) as [[d|e] g];
     [case_decide|]);
    cbn [self globals xserver window_details last_window input_stat
         input_flush_interval];
    rewrite ?app_nil_r, <- ?app_assoc; reflexivity.
Qed.

Lemma active_window_lines_app out1 out2 :
  active_window_lines (out1 ++ out2)
  = active_window_lines out1 ++ active_window_lines out2.
Proof. apply omap_app. Qed.

Lemma active_window_lines_new_pid l :
  Forall is_new_pid l → active_window_lines l = [].
Proof.
  induction 1 as [|line l (pid & v & ->) _ IH]; [done|].
  unfold active_window_lines in *. simpl. exact IH.
Qed.

Lemma active_window_lines_flush a : active_window_lines (flush_lines a) = [].
Proof. unfold flush_lines. by case_decide. Qed.

Lemma run_cons x xs s :
  run (x :: xs) s
  = match react x s with
    | (Ok _, s') => run xs s'
    | (Raise e, s') => (Raise e, s')
    end.
Proof. reflexivity. Qed.

(** A property kept by every reaction holds at the end of a run, also of
    one that an exception cut short. *)
Lemma run_invariant (P : System → Prop) xs :
  (∀ x s, x ∈ xs → P s → P (exec (react x) s)) →
  ∀ s, P s → P (exec (run xs) s).
Proof.
  induction xs as [|x xs IH]; intros Hstep s HP; [done|].
  unfold exec. rewrite run_cons.
  assert (P (exec (react x) s)) as HP' by (apply Hstep; [left|done]).
  unfold exec in HP'.
  destruct (react x s) as [[[]|e] s']; [|done].
  apply IH; [|done]. intros y t Hy. apply Hstep. by right.
Qed.

Lemma tick_written s :
  written (exec (flush_input_stat true) s) = written s
  ∨ written (exec (flush_input_stat true) s)
    = written s ++ [("input", InputData (input_data true (self s)))].
Proof.
  unfold exec, written.
  destruct (decide (input_stat (self s) = ∅)) as [He|Hne].
  - left. by rewrite flush_input_stat_empty.
  - right. by rewrite flush_input_stat_nonempty.
Qed.

(** C2. A check ([process_window]) whose resolution returns [d] writes an
    ['active-window'] event exactly when [d] differs from the stored
    [window_details], and then exactly one, with payload [d]: so each of
    [None] to [Some] and [Some] to [None] writes one event.  It stores [d],
    and sets [last_window] to the handle it found whether or not [d]
    differed.  Hence a next check that resolves to the same [d], from
    whatever handle, writes no ['active-window'] event and still updates
    [last_window]. *)
Theorem active_window_iff_metadata_changed :
  (∀ w s d g,
     window_options w (getActiveWindow w) (globals s) = (Ok d, g) →
     ∃ s', process_window w s = (Ok (), s')
           ∧ active_window_lines (written s')
             = active_window_lines (written s)
               ++ (if decide (d = window_details (self s)) then [] else [d])
           ∧ window_details (self s') = d
           ∧ last_window (self s') = getActiveWindow w)
  ∧ (∀ w1 w2 s s1 d g1 g2,
       window_options w1 (getActiveWindow w1) (globals s) = (Ok d, g1) →
       process_window w1 s = (Ok (), s1) →
       window_options w2 (getActiveWindow w2) (globals s1) = (Ok d, g2) →
       ∃ s2, process_window w2 s1 = (Ok (), s2)
             ∧ active_window_lines (written s2) = active_window_lines (written s1)
             ∧ last_window (self s2) = getActiveWindow w2).
Proof.
  assert (∀ w s d g,
            window_options w (getActiveWindow w) (globals s) = (Ok d, g) →
            ∃ s', process_window w s = (Ok (), s')
                  ∧ active_window_lines (written s')
                    = active_window_lines (written s)
                      ++ (if decide (d = window_details (self s)) then [] else [d])
                  ∧ window_details (self s') = d
                  ∧ last_window (self s') = getActiveWindow w) as Hone.
  { intros w s d g Hwo.
    destruct (window_options_stdout w (getActiveWindow w) (globals s))
      as (l & Hout & Hl).
    rewrite Hwo in Hout. simpl in Hout.
    rewrite process_window_spec. cbv zeta. rewrite Hwo.
    destruct (decide (d = window_details (self s))) as [Hd|Hd].
    all: eexists; split; [reflexivity|]; unfold written; cbn [self globals stdout
      window_details last_window]; split; [|done].
    - rewrite Hout, active_window_lines_app, (active_window_lines_new_pid l) by done.
      by rewrite !app_nil_r.
    - rewrite Hout, !active_window_lines_app, (active_window_lines_new_pid l) by done.
      rewrite active_window_lines_flush. simpl. by rewrite !app_nil_r. }
  split; [exact Hone|].
  intros w1 w2 s s1 d g1 g2 Hwo1 Hpw1 Hwo2.
  destruct (Hone w1 s d g1 Hwo1) as (s1' & Hpw1' & _ & Hd1 & _).
  rewrite Hpw1 in Hpw1'. injection Hpw1' as <-.
  destruct (Hone w2 s1 d g2 Hwo2) as (s2 & Hpw2 & Hlines & _ & Hlast).
  exists s2. split; [done|]. split; [|done].
  rewrite Hlines, decide_True by done. by rewrite app_nil_r.
Qed.

(** C4 (as amended). While no window is focused nothing is written for the
    focus: in a run in which every check finds no active window, every check
    returns and no ['active-window'] event is written, not at the first check
    either. *)
Theorem no_window_no_active_window_event (xs : list stimulus) :
  (∀ w, FocusCheck w ∈ xs → getActiveWindow w = None) →
  (run xs boot).1 = Ok ()
  ∧ active_window_lines (written (exec (run xs) boot)) = [].
Proof.
  intros Habsent.
  assert (∀ s, window_details (self s) = None →
               active_window_lines (written s) = [] →
               (run xs s).1 = Ok ()
               ∧ active_window_lines (written (exec (run xs) s)) = []) as Hgen.
  { induction xs as [|x xs IH]; intros s Hwd Hout; [done|].
    unfold exec. rewrite run_cons.
    assert (∃ s', react x s = (Ok (), s')
                  ∧ window_details (self s') = None
                  ∧ active_window_lines (written s') = []) as (s' & -> & Hwd' & Hout').
    { destruct x as [key| |w]; simpl.
      - rewrite update_input_stat_spec. eexists; split; [reflexivity|]. done.
      - destruct (decide (input_stat (self s) = ∅)) as [He|Hne].
        + rewrite flush_input_stat_empty by done. by eexists.
        + rewrite flush_input_stat_nonempty by done.
          eexists; split; [reflexivity|]. split; [done|].
          unfold written in *. simpl. rewrite active_window_lines_app, Hout. done.
      - rewrite process_window_spec. cbv zeta.
        rewrite (Habsent w) by left. simpl. rewrite Hwd.
        rewrite decide_True by done.
        eexists; split; [reflexivity|]. done. }
    apply IH; [|done..]. intros w Hw. apply Habsent. by right. }
  by apply Hgen.
Qed.

(** ** The ['input'] lines of a run *)

Lemma input_line_ok_new_pid l : Forall is_new_pid l → Forall input_line_ok l.
Proof.
  intros Hl. eapply Forall_impl; [exact Hl|].
  intros line (pid & v & ->) data Heq. discriminate.
Qed.

Lemma input_line_ok_flush timeout a :
  input_flush_interval a = 20%Z →
  input_line_ok ("input", InputData (input_data timeout a)).
Proof.
  intros Hint data [= <-]. exists timeout.
  by rewrite input_data_timeout, input_data_interval, Hint.
Qed.

Lemma react_keeps_input_lines x s :
  input_flush_interval (self s) = 20%Z ∧ Forall input_line_ok (written s) →
  input_flush_interval (self (exec (react x) s)) = 20%Z
  ∧ Forall input_line_ok (written (exec (react x) s)).
Proof.
  intros [Hint Hout]. destruct x as [key| |w]; simpl.
  - unfold exec. by rewrite update_input_stat_spec.
  - unfold exec, written in *.
    destruct (decide (input_stat (self s) = ∅)) as [He|Hne].
    + by rewrite flush_input_stat_empty.
    + rewrite flush_input_stat_nonempty by done. simpl. split; [done|].
      apply Forall_app. split; [done|].
      repeat constructor. by apply (input_line_ok_flush true (self s)).
  - unfold exec, written in *. rewrite process_window_spec. cbv zeta.
    destruct (window_options_stdout w (getActiveWindow w) (globals s))
      as (l & Hl & Hnew).
    destruct (window_options w (getActiveWindow w) (globals s)) as [[d|e] g];
      simpl in Hl.
    + case_decide; simpl; (split; [done|]); rewrite Hl.
      * apply Forall_app. split; [done|]. by apply input_line_ok_new_pid.
      * rewrite !Forall_app. split; [|split].
        -- split; [done|]. by apply input_line_ok_new_pid.
        -- unfold flush_lines. case_decide; [done|].
           repeat constructor. by apply input_line_ok_flush.
        -- repeat constructor. intros data Heq. discriminate.
    + simpl. split; [done|]. rewrite Hl.
      apply Forall_app. split; [done|]. by apply input_line_ok_new_pid.
Qed.

(** C8. A flush writes nothing, or one ['input'] line whose data records
    the [timeout] it was called with and has the key ['interval'] exactly when
    that [timeout] is true, the value being [input_flush_interval].  In every
    run from the start state, each ['input'] line written has ['interval']
    exactly when its ['timeout'] is true, and then it is 20. *)
Theorem interval_iff_timeout :
  (∀ timeout s,
     written (exec (flush_input_stat timeout) s) = written s
     ∨ ∃ data,
         written (exec (flush_input_stat timeout) s)
         = written s ++ [("input", InputData data)]
         ∧ data !! "timeout" = Some (JBool timeout)
         ∧ (is_Some (data !! "interval") ↔ timeout = true)
         ∧ (∀ v, data !! "interval" = Some v → v = JInt (input_flush_interval (self s))))
  ∧ (∀ xs data,
       ("input", InputData data) ∈ written (exec (run xs) boot) →
       ∃ timeout : bool,
         data !! "timeout" = Some (JBool timeout)
         ∧ data !! "interval" = if timeout then Some (JInt 20) else None).
Proof.
  split.
  - intros timeout s. unfold exec, written.
    destruct (decide (input_stat (self s) = ∅)) as [He|Hne].
    + left. by rewrite flush_input_stat_empty.
    + right. rewrite flush_input_stat_nonempty by done. simpl.
      eexists. split; [reflexivity|].
      rewrite input_data_timeout, input_data_interval.
      split; [done|]. destruct timeout; split.
      * done.
      * intros v [= <-]. done.
      * split; [intros [v Hv]; discriminate|discriminate].
      * intros v Hv. discriminate.
  - intros xs data Hin.
    assert (input_flush_interval (self (exec (run xs) boot)) = 20%Z
            ∧ Forall input_line_ok (written (exec (run xs) boot))) as [_ Hall].
    { apply (run_invariant
               (λ s, input_flush_interval (self s) = 20%Z
                     ∧ Forall input_line_ok (written s))).
      - intros x s _. apply react_keeps_input_lines.
      - split; [reflexivity|constructor]. }
    rewrite Forall_forall in Hall. by apply (Hall _ Hin).
Qed.

(** ** Failures during a resolution *)

Lemma discover_miss_fill w p g v :
  p ≠ 0%Z → cache_find p (cache g) = None → psutil_cmdline w p = Ok v →
  discover w (Some p) g
  = (Ok (), {| cache := filled p v (cache g);
               stdout := stdout g ++ [("new-pid", NewPidData p v)] |}).
Proof.
  intros Hp Hfind Hps. unfold discover, pid_truthy.
  rewrite decide_False by done. unfold mbind, M_bind, mret, M_ret.
  by rewrite (cmdline_by_pid_miss_fill _ _ _ _ Hfind Hps).
Qed.

Lemma discover_miss_raise w p g e :
  p ≠ 0%Z → cache_find p (cache g) = None → psutil_cmdline w p = Raise e →
  discover w (Some p) g = (Raise e, g).
Proof.
  intros Hp Hfind Hps. unfold discover, pid_truthy.
  rewrite decide_False by done. unfold mbind, M_bind, mret, M_ret.
  by rewrite (cmdline_by_pid_miss_raise _ _ _ _ Hfind Hps).
Qed.

Lemma getWmName_BadWindow w win :
  super_getWmName w win = Raise BadWindow → getWmName w win = Raise BadWindow.
Proof. intros H. unfold getWmName. by rewrite H. Qed.

Lemma isWmFullscreen_BadWindow w win :
  getWmState w win = Raise BadWindow → isWmFullscreen w win = Raise BadWindow.
Proof. intros H. unfold isWmFullscreen. by rewrite H. Qed.

Lemma getWmClass_BadWindow w win :
  getProperty_WM_CLASS w win = Raise BadWindow → getWmClass w win = Raise BadWindow.
Proof. intros H. unfold getWmClass. by rewrite H. Qed.

Lemma getWmPid_BadWindow w win :
  super_getWmPid w win = Raise BadWindow → getWmPid w win = Raise BadWindow.
Proof. intros H. unfold getWmPid. by rewrite H. Qed.

(** C3. At a window whose pid is not cached and whose process is gone,
    [window_options] does not return: [NoSuchProcess] leaves the cache, which
    stores nothing, and then leaves the resolver, the check and the run. *)
Theorem process_lookup_failure_ends_run w win s p :
  getActiveWindow w = Some win →
  getWmPid w win = Ok (Some p) →
  p ≠ 0%Z →
  cache_find p (cache (globals s)) = None →
  psutil_cmdline w p = Raise NoSuchProcess →
  cmdline_by_pid w p (globals s) = (Raise NoSuchProcess, globals s)
  ∧ window_options w (Some win) (globals s) = (Raise NoSuchProcess, globals s)
  ∧ (∀ xs, (run (FocusCheck w :: xs) s).1 = Raise NoSuchProcess).
Proof.
  intros Hactive Hpid Hp Hfind Hps.
  assert (window_options w (Some win) (globals s) = (Raise NoSuchProcess, globals s))
    as Hwo.
  { rewrite window_options_steps, Hpid.
    by rewrite (discover_miss_raise _ _ _ _ Hp Hfind Hps). }
  split; [by apply cmdline_by_pid_miss_raise|]. split; [done|].
  intros xs. rewrite run_cons. simpl react.
  rewrite process_window_spec. cbv zeta. by rewrite Hactive, Hwo.
Qed.

(** C7. [window_options] returns [None] for an absent handle and changes
    nothing; it never raises [BadWindow]; and when the first query to fail
    (pid, name, state or class, in this order) fails with [BadWindow], it
    returns [None]. *)
Theorem bad_window_is_swallowed :
  (∀ w g, window_options w None g = (Ok None, g))
  ∧ (∀ w win g, (window_options w win g).1 ≠ Raise BadWindow)
  ∧ (∀ w win g,
       super_getWmPid w win = Raise BadWindow →
       window_options w (Some win) g = (Ok None, g))
  ∧ (∀ w win g pid g1,
       getWmPid w win = Ok pid →
       discover w pid g = (Ok (), g1) →
       super_getWmName w win = Raise BadWindow →
       window_options w (Some win) g = (Ok None, g1))
  ∧ (∀ w win g pid g1 name,
       getWmPid w win = Ok pid →
       discover w pid g = (Ok (), g1) →
       getWmName w win = Ok name →
       getWmState w win = Raise BadWindow →
       window_options w (Some win) g = (Ok None, g1))
  ∧ (∀ w win g pid g1 name fullscreen,
       getWmPid w win = Ok pid →
       discover w pid g = (Ok (), g1) →
       getWmName w win = Ok name →
       isWmFullscreen w win = Ok fullscreen →
       getProperty_WM_CLASS w win = Raise BadWindow →
       window_options w (Some win) g = (Ok None, g1)).
Proof.
  split; [done|]. split; [apply window_options_not_BadWindow|].
  split; [|split; [|split]].
  - intros w win g H. by rewrite window_options_steps, (getWmPid_BadWindow _ _ H).
  - intros w win g pid g1 Hpid Hdisc H.
    by rewrite window_options_steps, Hpid, Hdisc, (getWmName_BadWindow _ _ H).
  - intros w win g pid g1 name Hpid Hdisc Hname H.
    by rewrite window_options_steps, Hpid, Hdisc, Hname,
      (isWmFullscreen_BadWindow _ _ H).
  - intros w win g pid g1 name fs Hpid Hdisc Hname Hfs H.
    by rewrite window_options_steps, Hpid, Hdisc, Hname, Hfs,
      (getWmClass_BadWindow _ _ H).
Qed.

(** C10. When the pid of the window is new to the cache, its process is
    found, and a later fetch of the same resolution fails with [BadWindow],
    [window_options] returns [None] although the ['new-pid'] line has been
    written and the pid is in the cache. *)
Theorem new_pid_survives_failed_resolution w win g p v :
  getWmPid w win = Ok (Some p) →
  p ≠ 0%Z →
  cache_find p (cache g) = None →
  psutil_cmdline w p = Ok v →
  later_fetch_fails w win →
  ∃ g', window_options w (Some win) g = (Ok None, g')
        ∧ stdout g' = stdout g ++ [("new-pid", NewPidData p v)]
        ∧ cache_find p (cache g') = Some v.
Proof.
  intros Hpid Hp Hfind Hps Hlater.
  eexists. split; [|split].
  - rewrite window_options_steps, Hpid.
    rewrite (discover_miss_fill _ _ _ _ Hp Hfind Hps).
    destruct Hlater as [Hn|[(name & Hn & Hf)|(name & fs & Hn & Hf & Hc)]].
    + rewrite Hn. reflexivity.
    + rewrite Hn, Hf. reflexivity.
    + rewrite Hn, Hf, Hc. reflexivity.
  - reflexivity.
  - simpl. by rewrite decide_True.
Qed.

(** ** Class identifiers *)

Lemma split_nul_cons blob : ∃ seg segs, split_nul blob = seg :: segs.
Proof.
  induction blob as [|b rest (seg & segs & IH)]; simpl; [by eexists _, _|].
  case_decide; [by eexists _, _|]. rewrite IH. by eexists _, _.
Qed.

Lemma filter_split_nul_from cur blob seg segs :
  split_nul blob = seg :: segs →
  List.filter bytes_truthy ((rev cur ++ seg) :: segs) = nul_fields_from cur blob.
Proof.
  revert cur seg segs. induction blob as [|b rest IH]; intros cur seg segs Hsplit.
  - simpl in Hsplit. injection Hsplit as <- <-. rewrite app_nil_r. simpl.
    destruct cur as [|c cur]; [done|].
    destruct (rev (c :: cur)) eqn:Hrev; [|done].
    apply (f_equal length) in Hrev. rewrite length_rev in Hrev. done.
  - simpl in Hsplit. simpl nul_fields_from.
    destruct (decide (b = x00)) as [->|Hb].
    + injection Hsplit as <- <-. rewrite app_nil_r.
      destruct (split_nul_cons rest) as (seg' & segs' & Hrest).
      rewrite <- (IH [] seg' segs' Hrest). rewrite Hrest. simpl.
      destruct cur as [|c cur]; [done|].
      destruct (rev (c :: cur)) eqn:Hrev; [|done].
      apply (f_equal length) in Hrev. rewrite length_rev in Hrev. done.
    + destruct (split_nul_cons rest) as (seg' & segs' & Hrest).
      rewrite Hrest in Hsplit. injection Hsplit as <- <-.
      rewrite <- (IH (b :: cur) seg' segs' Hrest). simpl.
      by rewrite <- app_assoc.
Qed.

Lemma filter_split_nul blob :
  List.filter bytes_truthy (split_nul blob) = nul_fields blob.
Proof.
  destruct (split_nul_cons blob) as (seg & segs & Hsplit).
  rewrite Hsplit. apply (filter_split_nul_from [] blob seg segs Hsplit).
Qed.

Lemma concat_split_nul blob :
  concat (split_nul blob) = List.filter (λ b, negb (bool_decide (b = x00))) blob.
Proof.
  induction blob as [|b rest IH]; [done|]. simpl.
  destruct (decide (b = x00)) as [->|Hb]; simpl; [done|].
  rewrite bool_decide_eq_false_2 by done. simpl. rewrite <- IH.
  by destruct (split_nul_cons rest) as (seg & segs & ->).
Qed.

Lemma concat_filter_truthy (l : list bytes) :
  concat (List.filter bytes_truthy l) = concat l.
Proof.
  induction l as [|[|b seg] l IH]; simpl; [done..|]. by rewrite IH.
Qed.

Lemma split_nul_no_nul blob : Forall (λ seg, x00 ∉ seg) (split_nul blob).
Proof.
  induction blob as [|b rest IH]; simpl.
  - repeat constructor. apply not_elem_of_nil.
  - case_decide as Hb.
    + constructor; [apply not_elem_of_nil|done].
    + destruct (split_nul rest) as [|seg segs].
      * repeat constructor. rewrite elem_of_cons, elem_of_nil. intros [?|[]]; congruence.
      * apply Forall_cons in IH as [Hseg Hsegs]. constructor; [|done].
        rewrite elem_of_cons. intros [?|?]; congruence.
Qed.

Lemma b2s_truthy (v : bytes) :
  bytes_truthy v = true →
  b2s (Some v) = match decode_utf8 v with
                 | Ok s => Ok (Some s)
                 | Raise e => Raise e
                 end.
Proof. intros Hv. unfold b2s. rewrite Hv. reflexivity. Qed.

(** ** UTF-8: the decoder against the standard *)

Ltac lia_div := zify; Z.to_euclidean_division_equations; lia.

Lemma in_range_true lo hi b :
  in_range lo hi b = true ↔ (lo ≤ Byte.to_N b ∧ Byte.to_N b ≤ hi)%N.
Proof. unfold in_range. rewrite andb_true_iff, !N.leb_le. done. Qed.

Lemma in_range_false lo hi b :
  in_range lo hi b = false ↔ (Byte.to_N b < lo ∨ hi < Byte.to_N b)%N.
Proof.
  unfold in_range. rewrite andb_false_iff, !N.leb_gt. done.
Qed.

Lemma to_N_byte_of n : (n < 256)%N → Byte.to_N (byte_of n) = n.
Proof.
  intros Hn. unfold byte_of. destruct (Byte.of_N n) as [b|] eqn:Hb.
  - by apply Byte.to_of_N.
  - apply Byte.of_N_None_iff in Hb. lia.
Qed.

Lemma byte_of_to_N b : byte_of (Byte.to_N b) = b.
Proof. unfold byte_of. by rewrite Byte.of_to_N. Qed.

Lemma byte_of_eq n b : n = Byte.to_N b → byte_of n = b.
Proof. intros ->. apply byte_of_to_N. Qed.

(** Decide every range test in the goal from the arithmetic at hand. *)
Ltac range_tests :=
  repeat match goal with
         | |- context [in_range ?lo ?hi ?b] =>
             let H := fresh "Hr" in
             destruct (in_range lo hi b) eqn:H;
             [apply in_range_true in H|apply in_range_false in H];
             rewrite ?to_N_byte_of in H by lia_div;
             try (exfalso; lia_div)
         end.

Lemma utf8_valid_encode_code_point cp rest :
  scalar cp → utf8_valid (encode_code_point cp ++ rest) = utf8_valid rest.
Proof.
  intros Hcp. unfold scalar in Hcp. unfold encode_code_point.
  destruct (N.ltb_spec cp 0x80) as [H1|H1];
    [|destruct (N.ltb_spec cp 0x800) as [H2|H2];
      [|destruct (N.ltb_spec cp 0x10000) as [H3|H3]]];
    cbn [app utf8_valid]; unfold continuation; range_tests; reflexivity.
Qed.

(** Turn the range tests among the hypotheses into arithmetic. *)
Ltac range_facts :=
  unfold continuation in *;
  repeat match goal with
         | H : _ && _ = true |- _ => apply andb_true_iff in H as [? ?]
         | H : in_range _ _ _ = true |- _ => apply in_range_true in H
         | H : in_range _ _ _ = false |- _ => apply in_range_false in H
         end.

Lemma encode_1 b :
  (Byte.to_N b < 0x80)%N → encode_code_point (Byte.to_N b) = [b].
Proof.
  intros Hb. unfold encode_code_point.
  destruct (N.ltb_spec (Byte.to_N b) 0x80); [|lia]. by rewrite byte_of_to_N.
Qed.

Lemma encode_2 b0 b1 :
  (0xC2 ≤ Byte.to_N b0 ≤ 0xDF)%N → (0x80 ≤ Byte.to_N b1 ≤ 0xBF)%N →
  encode_code_point ((Byte.to_N b0 - 0xC0) * 64 + (Byte.to_N b1 - 0x80)) = [b0; b1].
Proof.
  intros H0 H1. unfold encode_code_point.
  destruct (N.ltb_spec ((Byte.to_N b0 - 0xC0) * 64 + (Byte.to_N b1 - 0x80)) 0x80);
    [lia|].
  destruct (N.ltb_spec ((Byte.to_N b0 - 0xC0) * 64 + (Byte.to_N b1 - 0x80)) 0x800);
    [|lia].
  f_equal; [|f_equal]; apply byte_of_eq; lia_div.
Qed.

Lemma encode_3 b0 b1 b2 :
  (0xE0 ≤ Byte.to_N b0 ≤ 0xEF)%N →
  (0x80 ≤ Byte.to_N b1 ≤ 0xBF)%N →
  (Byte.to_N b0 = 0xE0 → 0xA0 ≤ Byte.to_N b1)%N →
  (0x80 ≤ Byte.to_N b2 ≤ 0xBF)%N →
  encode_code_point ((Byte.to_N b0 - 0xE0) * 4096 + (Byte.to_N b1 - 0x80) * 64
                     + (Byte.to_N b2 - 0x80)) = [b0; b1; b2].
Proof.
  intros H0 H1 H1' H2. unfold encode_code_point.
  set (cp := ((Byte.to_N b0 - 0xE0) * 4096 + (Byte.to_N b1 - 0x80) * 64
              + (Byte.to_N b2 - 0x80))%N).
  assert (0x800 ≤ cp < 0x10000)%N as Hcp by (subst cp; lia).
  destruct (N.ltb_spec cp 0x80); [lia|].
  destruct (N.ltb_spec cp 0x800); [lia|].
  destruct (N.ltb_spec cp 0x10000); [|lia].
  subst cp. f_equal; [|f_equal; [|f_equal]]; apply byte_of_eq; lia_div.
Qed.

Lemma encode_4 b0 b1 b2 b3 :
  (0xF0 ≤ Byte.to_N b0 ≤ 0xF4)%N →
  (0x80 ≤ Byte.to_N b1 ≤ 0xBF)%N →
  (Byte.to_N b0 = 0xF0 → 0x90 ≤ Byte.to_N b1)%N →
  (0x80 ≤ Byte.to_N b2 ≤ 0xBF)%N →
  (0x80 ≤ Byte.to_N b3 ≤ 0xBF)%N →
  encode_code_point ((Byte.to_N b0 - 0xF0) * 262144 + (Byte.to_N b1 - 0x80) * 4096
                     + (Byte.to_N b2 - 0x80) * 64 + (Byte.to_N b3 - 0x80))
  = [b0; b1; b2; b3].
Proof.
  intros H0 H1 H1' H2 H3. unfold encode_code_point.
  set (cp := ((Byte.to_N b0 - 0xF0) * 262144 + (Byte.to_N b1 - 0x80) * 4096
              + (Byte.to_N b2 - 0x80) * 64 + (Byte.to_N b3 - 0x80))%N).
  assert (0x10000 ≤ cp)%N as Hcp by (subst cp; lia).
  destruct (N.ltb_spec cp 0x80); [lia|].
  destruct (N.ltb_spec cp 0x800); [lia|].
  destruct (N.ltb_spec cp 0x10000); [lia|].
  subst cp. f_equal; [|f_equal; [|f_equal; [|f_equal]]]; apply byte_of_eq; lia_div.
Qed.

Lemma is_utf8_cons (cp : N) (enc rest : bytes) :
  scalar cp → encode_code_point cp = enc → is_utf8 rest → is_utf8 (enc ++ rest).
Proof.
  intros Hcp <- (cps & Hcps & ->). exists (cp :: cps). split; [by constructor|done].
Qed.

Lemma utf8_valid_is_utf8 (n : nat) (bs : bytes) :
  length bs ≤ n → utf8_valid bs = true → is_utf8 bs.
Proof.
  revert bs. induction n as [|n IH]; intros bs Hlen Hv.
  { destruct bs; [|simpl in Hlen; lia]. by exists []. }
  destruct bs as [|b0 r0]; [by exists []|].
  cbn [utf8_valid] in Hv. cbn [length] in Hlen.
  destruct (in_range 0x00 0x7F b0) eqn:H1.
  { range_facts.
    apply (is_utf8_cons (Byte.to_N b0) [b0]);
      [unfold scalar; lia|apply encode_1; lia|apply IH; [lia|done]]. }
  destruct r0 as [|b1 r1]; [done|]. cbn [length] in Hlen.
  destruct (in_range 0xC2 0xDF b0) eqn:H2.
  { range_facts.
    apply (is_utf8_cons ((Byte.to_N b0 - 0xC0) * 64 + (Byte.to_N b1 - 0x80)) [b0; b1]);
      [unfold scalar; lia|by apply encode_2|apply IH; [lia|done]]. }
  destruct r1 as [|b2 r2]; [done|]. cbn [length] in Hlen.
  assert (∀ (Hlead : (0xE0 ≤ Byte.to_N b0 ≤ 0xEF)%N)
            (Hb1 : (0x80 ≤ Byte.to_N b1 ≤ 0xBF)%N)
            (Hlow : (Byte.to_N b0 = 0xE0 → 0xA0 ≤ Byte.to_N b1)%N)
            (Hsur : (Byte.to_N b0 = 0xED → Byte.to_N b1 ≤ 0x9F)%N)
            (Hb2 : (0x80 ≤ Byte.to_N b2 ≤ 0xBF)%N),
            utf8_valid r2 = true → is_utf8 (b0 :: b1 :: b2 :: r2)) as Hthree.
  { intros Hlead Hb1 Hlow Hsur Hb2 Hr2.
    apply (is_utf8_cons ((Byte.to_N b0 - 0xE0) * 4096 + (Byte.to_N b1 - 0x80) * 64
                         + (Byte.to_N b2 - 0x80)) [b0; b1; b2]);
      [unfold scalar; lia|by apply encode_3|apply IH; [lia|done]]. }
  destruct (in_range 0xE0 0xE0 b0) eqn:H3.
  { range_facts. apply Hthree; [lia..|done]. }
  destruct (in_range 0xED 0xED b0) eqn:H4.
  { range_facts. apply Hthree; [lia..|done]. }
  destruct (in_range 0xE1 0xEF b0) eqn:H5.
  { range_facts. apply Hthree; [lia..|done]. }
  destruct r2 as [|b3 r3]; [done|]. cbn [length] in Hlen.
  assert (∀ (Hlead : (0xF0 ≤ Byte.to_N b0 ≤ 0xF4)%N)
            (Hb1 : (0x80 ≤ Byte.to_N b1 ≤ 0xBF)%N)
            (Hlow : (Byte.to_N b0 = 0xF0 → 0x90 ≤ Byte.to_N b1)%N)
            (Hhigh : (Byte.to_N b0 = 0xF4 → Byte.to_N b1 ≤ 0x8F)%N)
            (Hb2 : (0x80 ≤ Byte.to_N b2 ≤ 0xBF)%N)
            (Hb3 : (0x80 ≤ Byte.to_N b3 ≤ 0xBF)%N),
            utf8_valid r3 = true → is_utf8 (b0 :: b1 :: b2 :: b3 :: r3)) as Hfour.
  { intros Hlead Hb1 Hlow Hhigh Hb2 Hb3 Hr3.
    apply (is_utf8_cons ((Byte.to_N b0 - 0xF0) * 262144 + (Byte.to_N b1 - 0x80) * 4096
                         + (Byte.to_N b2 - 0x80) * 64 + (Byte.to_N b3 - 0x80))
             [b0; b1; b2; b3]);
      [unfold scalar; lia|by apply encode_4|apply IH; [lia|done]]. }
  destruct (in_range 0xF0 0xF0 b0) eqn:H6.
  { range_facts. apply Hfour; [lia..|done]. }
  destruct (in_range 0xF1 0xF3 b0) eqn:H7.
  { range_facts. apply Hfour; [lia..|done]. }
  destruct (in_range 0xF4 0xF4 b0) eqn:H8; [|done].
  range_facts. apply Hfour; [lia..|done].
Qed.

(** The decoder accepts exactly the encodings of texts. *)
Lemma utf8_valid_iff (bs : bytes) : utf8_valid bs = true ↔ is_utf8 bs.
Proof.
  split; [by apply (utf8_valid_is_utf8 (length bs))|].
  intros (cps & Hcps & ->). induction Hcps as [|cp cps Hcp _ IH]; [done|].
  unfold utf8_encode. cbn [fmap list_fmap concat].
  by rewrite utf8_valid_encode_code_point.
Qed.

Lemma decode_utf8_encode cps :
  Forall scalar cps → decode_utf8 (utf8_encode cps) = Ok (str_of_code_points cps).
Proof.
  intros Hcps. unfold decode_utf8.
  by rewrite (proj2 (utf8_valid_iff (utf8_encode cps))) by by exists cps.
Qed.

Lemma decode_utf8_not_utf8 seg :
  ¬ is_utf8 seg → decode_utf8 seg = Raise UnicodeDecodeError.
Proof.
  intros Hnot. unfold decode_utf8.
  destruct (utf8_valid seg) eqn:Hv; [|done]. by apply utf8_valid_iff in Hv.
Qed.

Lemma decode_utf8_raises seg e : decode_utf8 seg = Raise e → e = UnicodeDecodeError.
Proof. unfold decode_utf8. destruct (utf8_valid seg); [done|]. by intros [= <-]. Qed.

Lemma map_raising_b2s_texts (cpss : list (list N)) :
  Forall (λ cps, bytes_truthy (utf8_encode cps) = true) cpss →
  Forall (Forall scalar) cpss →
  map_raising (λ v, b2s (Some v)) (utf8_encode <$> cpss)
  = Ok ((λ cps, Some (str_of_code_points cps)) <$> cpss).
Proof.
  intros Htruthy Hscalar. induction cpss as [|cps cpss IH]; [done|].
  apply Forall_cons in Htruthy as [Hcps Htruthy].
  apply Forall_cons in Hscalar as [Hsc Hscalar].
  cbn [fmap list_fmap map_raising].
  rewrite (b2s_truthy _ Hcps), (decode_utf8_encode cps Hsc).
  cbn [mbind result_bind]. by rewrite (IH Htruthy Hscalar).
Qed.

Lemma map_raising_b2s_raises (l : list bytes) (seg : bytes) :
  Forall (λ v, bytes_truthy v = true) l →
  seg ∈ l → ¬ is_utf8 seg →
  map_raising (λ v, b2s (Some v)) l = Raise UnicodeDecodeError.
Proof.
  intros Htruthy Hin Hnot. induction Htruthy as [|v l Hv _ IH].
  { by apply elem_of_nil in Hin. }
  cbn [map_raising]. rewrite (b2s_truthy v Hv).
  destruct (decode_utf8 v) as [s|e] eqn:Hs; cbn [mbind result_bind].
  - apply elem_of_cons in Hin as [->|Hin].
    + by rewrite (decode_utf8_not_utf8 v Hnot) in Hs.
    + by rewrite (IH Hin).
  - by rewrite (decode_utf8_raises v e Hs).
Qed.

Lemma nul_fields_truthy blob :
  Forall (λ v, bytes_truthy v = true) (nul_fields blob).
Proof.
  rewrite <- filter_split_nul. apply List.Forall_forall.
  intros seg Hin. by apply List.filter_In in Hin as [_ ?].
Qed.

Lemma getWmClass_fields w win value :
  getProperty_WM_CLASS w win = Ok value →
  getWmClass w win
  = map_raising (λ v, b2s (Some v)) (nul_fields (default [] value)).
Proof.
  intros Hprop. unfold getWmClass. rewrite Hprop. cbn [mbind result_bind].
  rewrite filter_split_nul. by destruct value as [[|b v]|].
Qed.

Lemma nul_fields_from_field cur seg rest :
  x00 ∉ seg →
  nul_fields_from cur (seg ++ rest) = nul_fields_from (rev seg ++ cur) rest.
Proof.
  revert cur. induction seg as [|b seg IH]; intros cur Hnul; [done|].
  apply not_elem_of_cons in Hnul as [Hb Hnul].
  cbn [app nul_fields_from]. rewrite decide_False by done.
  rewrite IH by done. cbn [rev]. by rewrite <- app_assoc.
Qed.

(** C9. [getWmClass] and the class property.  A failed query fails the
    call.  Otherwise the value (the empty blob when the property is missing)
    is cut into its fields: the blob split at NUL bytes, without the empty
    segments, in the order of the blob.  When every field is the UTF-8
    encoding of a text, the call returns these texts, one per field, in that
    order; when some field is not UTF-8, the call raises
    [UnicodeDecodeError].  The fields are what splitting at NUL and dropping
    the empty segments gives: no NUL and no empty field among them, together
    the blob without its NUL bytes; a NUL in front adds no field and a run of
    other bytes up to the next NUL or the end is one field. *)
Theorem class_identifiers_of_blob :
  (∀ w win e,
     getProperty_WM_CLASS w win = Raise e → getWmClass w win = Raise e)
  ∧ (∀ w win value cpss,
       getProperty_WM_CLASS w win = Ok value →
       nul_fields (default [] value) = utf8_encode <$> cpss →
       Forall (Forall scalar) cpss →
       getWmClass w win = Ok ((λ cps, Some (str_of_code_points cps)) <$> cpss))
  ∧ (∀ w win value seg,
       getProperty_WM_CLASS w win = Ok value →
       seg ∈ nul_fields (default [] value) →
       ¬ is_utf8 seg →
       getWmClass w win = Raise UnicodeDecodeError)
  ∧ (∀ blob,
       nul_fields blob = List.filter bytes_truthy (split_nul blob)
       ∧ Forall (λ seg, seg ≠ [] ∧ x00 ∉ seg) (nul_fields blob)
       ∧ concat (nul_fields blob)
         = List.filter (λ b, negb (bool_decide (b = x00))) blob)
  ∧ (nul_fields [] = []
     ∧ (∀ blob, nul_fields (x00 :: blob) = nul_fields blob)
     ∧ (∀ seg, seg ≠ [] → x00 ∉ seg → nul_fields seg = [seg])
     ∧ (∀ seg blob, seg ≠ [] → x00 ∉ seg →
          nul_fields (seg ++ x00 :: blob) = seg :: nul_fields blob)).
Proof.
  split; [|split; [|split; [|split]]].
  - intros w win e Hprop. unfold getWmClass. by rewrite Hprop.
  - intros w win value cpss Hprop Hfields Hscalar.
    rewrite (getWmClass_fields w win value Hprop), Hfields.
    apply map_raising_b2s_texts; [|done].
    pose proof (nul_fields_truthy (default [] value)) as Htruthy.
    rewrite Hfields in Htruthy. by apply Forall_fmap in Htruthy.
  - intros w win value seg Hprop Hin Hnot.
    rewrite (getWmClass_fields w win value Hprop).
    by apply (map_raising_b2s_raises _ seg); [apply nul_fields_truthy|..].
  - intros blob. split; [by rewrite filter_split_nul|]. split.
    + rewrite <- filter_split_nul. apply List.Forall_forall.
      intros seg Hin. apply List.filter_In in Hin as [Hin Htrue].
      split; [by destruct seg|].
      pose proof (split_nul_no_nul blob) as Hno.
      rewrite List.Forall_forall in Hno. by apply Hno.
    + by rewrite <- filter_split_nul, concat_filter_truthy, concat_split_nul.
  - split; [done|]. split; [done|]. split.
    + intros seg Hseg Hnul. unfold nul_fields.
      rewrite <- (app_nil_r seg) at 1.
      rewrite nul_fields_from_field by done. cbn [nul_fields_from].
      rewrite app_nil_r. destruct (rev seg) eqn:Hrev.
      * apply (f_equal length) in Hrev. rewrite length_rev in Hrev.
        by destruct seg.
      * by rewrite <- Hrev, rev_involutive.
    + intros seg blob Hseg Hnul. unfold nul_fields.
      rewrite nul_fields_from_field by done. cbn [nul_fields_from].
      rewrite decide_True by done. rewrite app_nil_r.
      destruct (rev seg) eqn:Hrev.
      * apply (f_equal length) in Hrev. rewrite length_rev in Hrev.
        by destruct seg.
      * by rewrite <- Hrev, rev_involutive.
Qed.

(** ** Cache lifetime of a pid *)

Lemma maxsize_pos : 0 < maxsize.
Proof. unfold maxsize. lia. Qed.

Lemma cache_find_None key c : cache_find key c = None ↔ key ∉ keys c.
Proof.
  induction c as [|[k v] c IH].
  - split; [intros _; apply not_elem_of_nil|done].
  - change (keys ((k, v) :: c)) with (k :: keys c).
    rewrite not_elem_of_cons. simpl.
    destruct (decide (k = key)) as [->|Hne].
    + split; [done|]. by intros [? _].
    + rewrite IH. split; [intros ?; split; [congruence|done]|by intros [_ ?]].
Qed.

Lemma cache_find_Some key c v : cache_find key c = Some v → key ∈ keys c.
Proof.
  intros Hfind. destruct (decide (key ∈ keys c)) as [|Hnot]; [done|].
  apply cache_find_None in Hnot. congruence.
Qed.

Lemma keys_cache_remove key c :
  keys (cache_remove key c) = filter (λ k, k ≠ key) (keys c).
Proof.
  induction c as [|[k v] c IH]; [done|].
  change (keys ((k, v) :: c)) with (k :: keys c).
  change (cache_remove key ((k, v) :: c))
    with (if negb (bool_decide (k = key))
          then (k, v) :: cache_remove key c else cache_remove key c).
  rewrite filter_cons. destruct (decide (k = key)) as [->|Hne].
  - rewrite bool_decide_eq_true_2 by done. simpl.
    rewrite decide_False by (by intros ?). exact IH.
  - rewrite bool_decide_eq_false_2 by done. simpl.
    rewrite decide_True by done.
    change (keys ((k, v) :: cache_remove key c))
      with (k :: keys (cache_remove key c)).
    by rewrite IH.
Qed.

Lemma removelast_take {A} (l : list A) : removelast l = take (pred (length l)) l.
Proof. apply removelast_firstn_len. Qed.

Lemma keys_removelast c : keys (removelast c) = removelast (keys c).
Proof.
  unfold keys. rewrite !removelast_take, fmap_take. by rewrite length_fmap.
Qed.

(** Putting an entry in front of a table of at most [n] entries and
    dropping the last one of a full table keeps the first [n] entries. *)
Lemma trim_is_take {A} (n : nat) (x : A) (l : list A) :
  0 < n → length l ≤ n →
  x :: (if decide (n ≤ length l) then removelast l else l) = take n (x :: l).
Proof.
  intros Hn Hlen. destruct n as [|n]; [lia|]. simpl. f_equal.
  case_decide.
  - rewrite removelast_take. f_equal. lia.
  - rewrite take_ge; [done|lia].
Qed.

Lemma keys_filled pid v c :
  length c ≤ maxsize → keys (filled pid v c) = take maxsize (pid :: keys c).
Proof.
  intros Hlen. unfold filled. rewrite <- trim_is_take.
  - unfold keys at 1. simpl. f_equal. unfold keys. rewrite length_fmap.
    case_decide; [apply keys_removelast|done].
  - apply maxsize_pos.
  - unfold keys. by rewrite length_fmap.
Qed.

Lemma take_app_take {A} (n : nat) (l k : list A) :
  take n (l ++ take n k) = take n (l ++ k).
Proof.
  rewrite !take_app, take_take. do 2 f_equal. lia.
Qed.

Lemma length_cache_remove key c v :
  cache_find key c = Some v → S (length (cache_remove key c)) ≤ length c.
Proof.
  unfold cache_remove. induction c as [|[k w] c IH]; [done|]. simpl.
  destruct (decide (k = key)) as [->|Hne].
  - intros _. rewrite bool_decide_eq_true_2 by done. simpl.
    pose proof (List.filter_length_le
                  (λ kv : Z * list string, negb (bool_decide (kv.1 = key))) c).
    lia.
  - intros Hfind. rewrite bool_decide_eq_false_2 by done. simpl.
    specialize (IH Hfind). lia.
Qed.

(** The three ways a call can go. *)
Lemma resolve_cases call g :
  (∃ v, cache_find call.2 (cache g) = Some v
        ∧ resolve call g
          = (Ok v, set_cache ((call.2, v) :: cache_remove call.2 (cache g)) g))
  ∨ (∃ e, cache_find call.2 (cache g) = None
          ∧ psutil_cmdline call.1 call.2 = Raise e
          ∧ resolve call g = (Raise e, g))
  ∨ (∃ v, cache_find call.2 (cache g) = None
          ∧ psutil_cmdline call.1 call.2 = Ok v
          ∧ resolve call g
            = (Ok v, {| cache := filled call.2 v (cache g);
                        stdout := stdout g
                                  ++ [("new-pid", NewPidData call.2 v)] |})).
Proof.
  unfold resolve.
  destruct (cache_find call.2 (cache g)) as [v|] eqn:Hfind.
  - left. exists v. split; [done|]. by apply cmdline_by_pid_hit.
  - right. destruct (psutil_cmdline call.1 call.2) as [v|e] eqn:Hps.
    + right. exists v. split; [done|]. split; [done|].
      by apply cmdline_by_pid_miss_fill.
    + left. exists e. split; [done|]. split; [done|].
      by apply cmdline_by_pid_miss_raise.
Qed.

Lemma resolve_cache_ok call g : cache_ok g → cache_ok (exec (resolve call) g).
Proof.
  intros [Hnodup Hlen]. unfold exec, cache_ok.
  destruct (resolve_cases call g)
    as [(v & Hfind & ->)|[(e & Hfind & Hps & ->)|(v & Hfind & Hps & ->)]];
    cbn [snd cache set_cache].
  - split.
    + change (NoDup (call.2 :: keys (cache_remove call.2 (cache g)))).
      rewrite keys_cache_remove. constructor.
      * rewrite list_elem_of_filter. by intros [? _].
      * by apply NoDup_filter.
    + pose proof (length_cache_remove _ _ _ Hfind). simpl. lia.
  - done.
  - split.
    + rewrite keys_filled by done.
      eapply sublist_NoDup; [|apply sublist_take].
      constructor; [by apply cache_find_None|done].
    + pose proof (keys_filled call.2 v (cache g) Hlen) as Hk.
      apply (f_equal length) in Hk. unfold keys in Hk.
      rewrite length_fmap, length_take in Hk. lia.
Qed.

Lemma resolve_all_cache_ok calls g : cache_ok g → cache_ok (resolve_all calls g).
Proof.
  revert g. induction calls as [|call calls IH]; intros g Hok; [done|].
  simpl. apply IH. by apply resolve_cache_ok.
Qed.

Lemma new_pid_count_app pid out1 out2 :
  new_pid_count pid (out1 ++ out2) = new_pid_count pid out1 + new_pid_count pid out2.
Proof. unfold new_pid_count. by rewrite List.filter_app, length_app. Qed.

Lemma occurrences_app pid l1 l2 :
  occurrences pid (l1 ++ l2) = occurrences pid l1 + occurrences pid l2.
Proof. unfold occurrences. by rewrite List.filter_app, length_app. Qed.

Lemma new_pid_count_line pid p v :
  new_pid_count pid [("new-pid", NewPidData p v)] = one_if (p = pid).
Proof.
  unfold new_pid_count, one_if. simpl.
  destruct (decide (p = pid)) as [->|Hne].
  - by rewrite bool_decide_eq_true_2.
  - by rewrite bool_decide_eq_false_2.
Qed.

Lemma occurrences_one pid k : occurrences pid [k] = one_if (k = pid).
Proof.
  unfold occurrences, one_if. simpl.
  destruct (decide (k = pid)) as [->|Hne].
  - by rewrite bool_decide_eq_true_2.
  - by rewrite bool_decide_eq_false_2.
Qed.

Lemma keys_filled_raw pid v c :
  keys (filled pid v c)
  = pid :: (if decide (maxsize ≤ length c) then removelast (keys c) else keys c).
Proof.
  unfold filled. change (keys ((pid, v) :: ?l)) with (pid :: keys l). f_equal.
  case_decide; [apply keys_removelast|done].
Qed.

Lemma one_if_iff (P Q : Prop) `{Decision P, Decision Q} :
  (P ↔ Q) → one_if P = one_if Q.
Proof. intros Hiff. unfold one_if. repeat case_decide; tauto. Qed.

(** One call keeps the account of every pid: each ['new-pid'] line opens a
    stay in the table, each eviction closes one. *)
Lemma resolve_count call g pid :
  cache_ok g →
  new_pid_count pid (stdout (exec (resolve call) g)) + one_if (pid ∈ keys (cache g))
  = new_pid_count pid (stdout g)
    + occurrences pid (option_list (evicted_by call g))
    + one_if (pid ∈ keys (cache (exec (resolve call) g))).
Proof.
  intros [Hnodup Hlen]. unfold exec, evicted_by.
  destruct (resolve_cases call g)
    as [(v & Hfind & ->)|[(e & Hfind & Hps & ->)|(v & Hfind & Hps & ->)]];
    rewrite Hfind; cbn [snd cache stdout set_cache].
  - change (keys ((call.2, v) :: ?l)) with (call.2 :: keys l).
    rewrite keys_cache_remove.
    apply cache_find_Some in Hfind.
    assert (pid ∈ call.2 :: filter (λ k, k ≠ call.2) (keys (cache g))
            ↔ pid ∈ keys (cache g)) as Hiff.
    { rewrite elem_of_cons, list_elem_of_filter.
      destruct (decide (pid = call.2)) as [->|Hne]; tauto. }
    rewrite (one_if_iff _ _ Hiff). unfold occurrences. simpl. lia.
  - rewrite Hps. unfold occurrences. simpl. lia.
  - rewrite Hps, new_pid_count_app, new_pid_count_line, keys_filled_raw.
    apply cache_find_None in Hfind.
    case_decide as Hfull.
    + destruct (last (keys (cache g))) as [k|] eqn:Hlast.
      * apply last_Some in Hlast as [l' Hl']. rewrite Hl' in *.
        rewrite removelast_last. simpl option_list. rewrite occurrences_one.
        apply NoDup_app in Hnodup as (_ & Hk & _).
        assert (k ∉ l') as Hkl' by (intros ?; apply (Hk k); [done|left]).
        unfold one_if. repeat case_decide; try lia; exfalso; list_membership.
      * apply last_None in Hlast. pose proof maxsize_pos.
        apply (f_equal length) in Hlast. unfold keys in Hlast.
        rewrite length_fmap in Hlast. simpl in Hlast. lia.
    + unfold occurrences at 1. simpl.
      unfold one_if. repeat case_decide; try lia; exfalso; list_membership.
Qed.

Lemma resolve_all_count calls g pid :
  cache_ok g →
  new_pid_count pid (stdout (resolve_all calls g)) + one_if (pid ∈ keys (cache g))
  = new_pid_count pid (stdout g)
    + occurrences pid (evictions calls g)
    + one_if (pid ∈ keys (cache (resolve_all calls g))).
Proof.
  revert g. induction calls as [|call calls IH]; intros g Hok; simpl.
  { unfold occurrences. simpl. lia. }
  rewrite occurrences_app.
  pose proof (resolve_count call g pid Hok).
  pose proof (IH _ (resolve_cache_ok call g Hok)). lia.
Qed.

(** Distinct pids that are not cached and whose processes exist fill the
    table from the front; what does not fit falls off the end. *)
Lemma resolve_all_distinct calls g :
  cache_ok g →
  NoDup calls.*2 →
  (∀ c, c ∈ calls → c.2 ∉ keys (cache g)) →
  (∀ c, c ∈ calls → ∃ v, psutil_cmdline c.1 c.2 = Ok v) →
  keys (cache (resolve_all calls g))
  = take maxsize (reverse calls.*2 ++ keys (cache g)).
Proof.
  revert g. induction calls as [|call calls IH]; intros g Hok Hnodup Hfresh Hfound.
  - simpl. destruct Hok as [_ Hlen]. rewrite take_ge; [done|].
    unfold keys. by rewrite length_fmap.
  - simpl. rewrite fmap_cons in Hnodup. apply NoDup_cons in Hnodup as [Hcall Hnodup].
    destruct (Hfound call) as [v Hps]; [left|].
    assert (cache_find call.2 (cache g) = None) as Hfind.
    { apply cache_find_None, Hfresh. left. }
    assert (exec (resolve call) g
            = {| cache := filled call.2 v (cache g);
                 stdout := stdout g ++ [("new-pid", NewPidData call.2 v)] |}) as Hstep.
    { unfold exec, resolve. by rewrite (cmdline_by_pid_miss_fill _ _ _ _ Hfind Hps). }
    pose proof (resolve_cache_ok call g Hok) as Hok'.
    rewrite Hstep in *. rewrite IH; [| done | done | | ].
    + cbn [cache]. rewrite keys_filled by apply Hok.
      rewrite take_app_take, reverse_cons, <- app_assoc. done.
    + intros c Hc. cbn [cache]. rewrite keys_filled by apply Hok.
      intros Hin. apply elem_of_take in Hin as (i & Hin & _).
      apply list_elem_of_lookup_2 in Hin. apply elem_of_cons in Hin as [Heq|Hin].
      * apply Hcall. rewrite <- Heq. by apply list_elem_of_fmap_2.
      * apply (Hfresh c); [by right|done].
    + intros c Hc. apply Hfound. by right.
Qed.

(** ** The cache against least-recently-used replacement *)

Lemma remove_dups_snoc (l : list Z) (p : Z) :
  remove_dups (l ++ [p]) = filter (λ k, k ≠ p) (remove_dups l) ++ [p].
Proof.
  induction l as [|x l IH]; [done|].
  cbn [app remove_dups]. rewrite IH.
  destruct (decide (x = p)) as [->|Hx].
  - destruct (decide_rel elem_of p (l ++ [p])) as [_|Hn];
      [|exfalso; apply Hn, elem_of_app; right; left].
    destruct (decide_rel elem_of p l); [done|].
    rewrite filter_cons, decide_False by (by intros ?). done.
  - destruct (decide_rel elem_of x (l ++ [p])) as [Hin|Hin],
      (decide_rel elem_of x l) as [Hin'|Hin']; try done.
    + exfalso. apply elem_of_app in Hin as [?|Hin]; [done|].
      apply elem_of_cons in Hin as [?|Hin]; [done|]. by apply elem_of_nil in Hin.
    + exfalso. apply Hin, elem_of_app. by left.
    + by rewrite filter_cons, decide_True.
Qed.

Lemma by_last_use_snoc (l : list Z) (p : Z) :
  by_last_use (l ++ [p]) = touch p (by_last_use l).
Proof.
  unfold by_last_use, touch.
  by rewrite remove_dups_snoc, reverse_app, filter_reverse.
Qed.

Lemma foldl_touch (pre pids : list Z) :
  foldl (λ order p, touch p order) (by_last_use pre) pids = by_last_use (pre ++ pids).
Proof.
  revert pre. induction pids as [|p pids IH]; intros pre; cbn [foldl].
  - by rewrite app_nil_r.
  - rewrite <- by_last_use_snoc, IH, <- app_assoc. done.
Qed.

Lemma lru_evictions_from_prefix (pre pids : list Z) :
  omap (lru_evicted_at (pre ++ pids)) (seq (length pre) (length pids))
  = lru_evictions_from (by_last_use pre) pids.
Proof.
  revert pre. induction pids as [|p pids IH]; intros pre; [done|].
  cbn [length seq lru_evictions_from].
  change (omap ?f (?x :: ?l))
    with (match f x with Some y => y :: omap f l | None => omap f l end).
  assert (lru_evicted_at (pre ++ p :: pids) (length pre)
          = if decide (p ∈ take maxsize (by_last_use pre)) then None
            else by_last_use pre !! (maxsize - 1)) as ->.
  { unfold lru_evicted_at. rewrite list_lookup_middle by done.
    by rewrite take_app_length. }
  rewrite <- by_last_use_snoc.
  specialize (IH (pre ++ [p])). rewrite length_app in IH. cbn [length] in IH.
  replace (length pre + 1) with (S (length pre)) in IH by lia.
  rewrite <- app_assoc in IH. cbn [app] in IH. rewrite <- IH.
  by destruct (decide (p ∈ take maxsize (by_last_use pre))),
       (by_last_use pre !! (maxsize - 1)).
Qed.

Lemma NoDup_touch p order : NoDup order → NoDup (touch p order).
Proof.
  intros Hnd. unfold touch. constructor.
  - rewrite list_elem_of_filter. by intros [? _].
  - by apply NoDup_filter.
Qed.

Lemma filter_ne_absent (p : Z) (l : list Z) :
  p ∉ l → filter (λ k, k ≠ p) l = l.
Proof.
  induction l as [|b l IH]; [done|]. intros [Hb Hl]%not_elem_of_cons.
  rewrite filter_cons, decide_True by done. by rewrite IH.
Qed.

Lemma take_filter_take (p : Z) (n : nat) (X : list Z) :
  NoDup X →
  take n (filter (λ k, k ≠ p) (take (S n) X)) = take n (filter (λ k, k ≠ p) X).
Proof.
  revert n. induction X as [|a X IH]; intros n Hnd; [done|].
  apply NoDup_cons in Hnd as [Ha Hnd]. cbn [take]. rewrite !filter_cons.
  destruct (decide (a ≠ p)) as [Hap|Hap].
  - destruct n as [|n]; [done|]. cbn [take]. by rewrite IH.
  - assert (a = p) as -> by (by destruct (decide (a = p))).
    rewrite !filter_ne_absent; [by rewrite take_take, Nat.min_id| done |].
    intros Hin. apply elem_of_take in Hin as (i & Hin & _).
    by apply list_elem_of_lookup_2 in Hin.
Qed.

Lemma take_touch_take (p : Z) (X : list Z) :
  NoDup X → take maxsize (touch p (take maxsize X)) = take maxsize (touch p X).
Proof.
  intros Hnd. unfold touch. pose proof maxsize_pos.
  destruct maxsize as [|m] eqn:Hm; [lia|]. cbn [take]. f_equal.
  by apply take_filter_take.
Qed.

(** One call whose process exists moves its pid to the front of the
    table, whatever was there. *)
Lemma resolve_touches call g order :
  cache_ok g → NoDup order →
  keys (cache g) = take maxsize order →
  (∃ v, psutil_cmdline call.1 call.2 = Ok v) →
  keys (cache (exec (resolve call) g)) = take maxsize (touch call.2 order).
Proof.
  intros Hok Hnd Hkeys [v Hv].
  pose proof (resolve_cache_ok call g Hok) as [_ Hlen'].
  destruct Hok as [Hnodup Hlen].
  rewrite <- take_touch_take, <- Hkeys by done.
  unfold exec in *.
  destruct (resolve_cases call g)
    as [(v' & Hfind & Hr)|[(e & Hfind & Hps & Hr)|(v' & Hfind & Hps & Hr)]];
    rewrite Hr in *; cbn [snd cache set_cache] in *.
  - change (keys ((call.2, v') :: ?l)) with (call.2 :: keys l).
    rewrite keys_cache_remove. fold (touch call.2 (keys (cache g))).
    rewrite take_ge; [done|].
    unfold touch. cbn [length] in *. rewrite <- keys_cache_remove.
    unfold keys. rewrite length_fmap. exact Hlen'.
  - congruence.
  - rewrite keys_filled by done. unfold touch. do 2 f_equal.
    apply cache_find_None in Hfind. by rewrite filter_ne_absent.
Qed.

Lemma resolve_evicts call g order :
  cache_ok g →
  keys (cache g) = take maxsize order →
  (∃ v, psutil_cmdline call.1 call.2 = Ok v) →
  evicted_by call g
  = if decide (call.2 ∈ take maxsize order) then None
    else order !! (maxsize - 1).
Proof.
  intros [_ Hlen] Hkeys [v Hv]. unfold evicted_by. rewrite Hv.
  pose proof maxsize_pos as Hpos.
  destruct (cache_find call.2 (cache g)) as [v'|] eqn:Hfind.
  - apply cache_find_Some in Hfind. rewrite Hkeys in Hfind.
    by rewrite (decide_True (P := call.2 ∈ take maxsize order)).
  - apply cache_find_None in Hfind. rewrite Hkeys in Hfind.
    rewrite (decide_False (P := call.2 ∈ take maxsize order)) by done.
    assert (length (cache g) = length (take maxsize order)) as Hl.
    { rewrite <- Hkeys. unfold keys. by rewrite length_fmap. }
    rewrite length_take in Hl.
    case_decide as Hfull.
    + rewrite Hkeys, last_lookup, length_take.
      replace (Init.Nat.pred (maxsize `min` length order)) with (maxsize - 1) by lia.
      apply lookup_take_lt. lia.
    + symmetry. apply lookup_ge_None. lia.
Qed.

(** The table and the evictions follow the history of the calls alone. *)
Lemma resolve_all_lru calls g order :
  cache_ok g → NoDup order →
  keys (cache g) = take maxsize order →
  (∀ c, c ∈ calls → ∃ v, psutil_cmdline c.1 c.2 = Ok v) →
  keys (cache (resolve_all calls g))
  = take maxsize (foldl (λ order p, touch p order) order calls.*2)
  ∧ evictions calls g = lru_evictions_from order calls.*2.
Proof.
  revert g order. induction calls as [|call calls IH];
    intros g order Hok Hnd Hkeys Hfound; [done|].
  cbn [resolve_all evictions fmap list_fmap foldl lru_evictions_from].
  assert (∃ v, psutil_cmdline call.1 call.2 = Ok v) as Hcall by (apply Hfound; left).
  destruct (IH (exec (resolve call) g) (touch call.2 order)) as [Hk He].
  - by apply resolve_cache_ok.
  - by apply NoDup_touch.
  - by apply resolve_touches.
  - intros c Hc. apply Hfound. by right.
  - split; [exact Hk|]. by rewrite He, (resolve_evicts call g order).
Qed.

(** C6. Calls of [cmdline_by_pid] from the empty table.  The table never
    holds more than 256 pids.  A call for a cached pid writes nothing and
    leaves the pid cached; a call for a pid that is not cached and whose
    process exists writes one ['new-pid'] line and caches the pid.  So for
    every pid the ['new-pid'] lines written are as many as its evictions, plus
    one when it is cached now.  Eviction is of the least recently used pid:
    after distinct pids whose processes exist the table holds the last 256 of
    them, so after 257 the first one is gone, the others are cached, and the
    first one gets a ['new-pid'] line again when it is resolved again.  And
    after any calls whose processes exist, repeated pids or not, the table
    holds the 256 pids used last, in the order of their last use, and the
    pids pushed out are those that least-recently-used replacement pushes
    out, both read off the history of the calls alone. *)
Theorem new_pid_once_per_cache_lifetime :
  (∀ calls, length (cache (resolve_all calls empty_globals)) ≤ 256)
  ∧ (∀ w pid g v,
       cache_find pid (cache g) = Some v →
       ∃ g', cmdline_by_pid w pid g = (Ok v, g')
             ∧ stdout g' = stdout g
             ∧ cache_find pid (cache g') = Some v)
  ∧ (∀ w pid g v,
       cache_find pid (cache g) = None →
       psutil_cmdline w pid = Ok v →
       ∃ g', cmdline_by_pid w pid g = (Ok v, g')
             ∧ stdout g' = stdout g ++ [("new-pid", NewPidData pid v)]
             ∧ cache_find pid (cache g') = Some v)
  ∧ (∀ calls pid,
       new_pid_count pid (stdout (resolve_all calls empty_globals))
       = occurrences pid (evictions calls empty_globals)
         + one_if (pid ∈ keys (cache (resolve_all calls empty_globals))))
  ∧ (∀ calls,
       NoDup calls.*2 →
       (∀ c, c ∈ calls → ∃ v, psutil_cmdline c.1 c.2 = Ok v) →
       keys (cache (resolve_all calls empty_globals))
       = take maxsize (reverse calls.*2))
  ∧ (∀ first rest,
       length rest = 256 →
       NoDup (first :: rest).*2 →
       (∀ c, c ∈ first :: rest → ∃ v, psutil_cmdline c.1 c.2 = Ok v) →
       (first.2 ∉ keys (cache (resolve_all (first :: rest) empty_globals)))
       ∧ (∀ c, c ∈ rest →
            c.2 ∈ keys (cache (resolve_all (first :: rest) empty_globals)))
       ∧ (∀ w v, psutil_cmdline w first.2 = Ok v →
            stdout (exec (cmdline_by_pid w first.2)
                      (resolve_all (first :: rest) empty_globals))
            = stdout (resolve_all (first :: rest) empty_globals)
              ++ [("new-pid", NewPidData first.2 v)]))
  ∧ (∀ calls,
       (∀ c, c ∈ calls → ∃ v, psutil_cmdline c.1 c.2 = Ok v) →
       keys (cache (resolve_all calls empty_globals)) = most_recent calls.*2
       ∧ evictions calls empty_globals = lru_evictions calls.*2).
Proof.
  assert (cache_ok empty_globals) as Hempty.
  { split; [constructor|]. simpl. lia. }
  assert (∀ calls,
            NoDup calls.*2 →
            (∀ c, c ∈ calls → ∃ v, psutil_cmdline c.1 c.2 = Ok v) →
            keys (cache (resolve_all calls empty_globals))
            = take maxsize (reverse calls.*2)) as Hlru.
  { intros calls Hnodup Hfound.
    rewrite resolve_all_distinct; [|done|done| |done].
    - by rewrite app_nil_r.
    - intros c _. apply not_elem_of_nil. }
  split; [|split; [|split; [|split; [|split; [|split]]]]].
  - intros calls. apply (resolve_all_cache_ok calls empty_globals Hempty).
  - intros w pid g v Hfind. eexists. split; [by apply cmdline_by_pid_hit|].
    split; [done|]. simpl. by rewrite decide_True.
  - intros w pid g v Hfind Hps. eexists.
    split; [by apply cmdline_by_pid_miss_fill|].
    split; [done|]. simpl. by rewrite decide_True.
  - intros calls pid.
    pose proof (resolve_all_count calls empty_globals pid Hempty) as Hcount.
    unfold one_if at 1 in Hcount. rewrite decide_False in Hcount.
    + unfold new_pid_count at 2 in Hcount. simpl in Hcount. lia.
    + apply not_elem_of_nil.
  - exact Hlru.
  - intros first rest Hlen Hnodup Hfound.
    pose proof (Hlru (first :: rest) Hnodup Hfound) as Hkeys.
    rewrite fmap_cons, reverse_cons in Hkeys.
    rewrite take_app_length' in Hkeys
      by (by rewrite length_reverse, length_fmap, Hlen).
    rewrite fmap_cons in Hnodup. apply NoDup_cons in Hnodup as [Hfirst _].
    assert (first.2 ∉ keys (cache (resolve_all (first :: rest) empty_globals)))
      as Hgone.
    { rewrite Hkeys. by rewrite elem_of_reverse. }
    split; [done|]. split.
    + intros c Hc. rewrite Hkeys, elem_of_reverse. by apply list_elem_of_fmap_2.
    + intros w v Hps. apply cache_find_None in Hgone. unfold exec.
      by rewrite (cmdline_by_pid_miss_fill _ _ _ _ Hgone Hps).
  - intros calls Hfound.
    destruct (resolve_all_lru calls empty_globals [] Hempty NoDup_nil_2
                eq_refl Hfound) as [Hk He].
    split.
    + rewrite Hk. unfold most_recent. f_equal. exact (foldl_touch [] calls.*2).
    + rewrite He. symmetry. exact (lru_evictions_from_prefix [] calls.*2).
Qed.

(** ** The scenarios, run *)

Example getWmClass_editor :
  getWmClass editor (mkWindow 7) = Ok [Some "editor"; Some "Editor"].
Proof. reflexivity. Qed.

Example window_options_no_pid :
  window_options no_pid (Some (mkWindow 7)) empty_globals
  = (Ok (Some {| md_name := Some "Editor"; md_wid := 7; md_pid := None;
                 md_fullscreen := false;
                 md_class := [Some "editor"; Some "Editor"] |}), empty_globals).
Proof. reflexivity. Qed.

Lemma active_window_iff_metadata_changed_witness :
  (∃ s', process_window editor boot = (Ok (), s')
         ∧ active_window_lines (written s')
           = active_window_lines (written boot)
             ++ (if decide (Some editor_details = window_details (self boot))
                 then [] else [Some editor_details])
         ∧ window_details (self s') = Some editor_details
         ∧ last_window (self s') = getActiveWindow editor)
  ∧ (∃ s2, process_window (gone 8) (exec (process_window (gone 7)) boot) = (Ok (), s2)
           ∧ active_window_lines (written s2)
             = active_window_lines (written (exec (process_window (gone 7)) boot))
           ∧ last_window (self s2) = getActiveWindow (gone 8)).
Proof.
  split.
  - apply (proj1 active_window_iff_metadata_changed editor boot (Some editor_details)
             {| cache := [(100%Z, ["vim"])];
                stdout := [("new-pid", NewPidData 100 ["vim"])] |}).
    reflexivity.
  - apply (proj2 active_window_iff_metadata_changed (gone 7) (gone 8) boot
             (exec (process_window (gone 7)) boot) None
             empty_globals empty_globals); reflexivity.
Defined.

Lemma process_lookup_failure_ends_run_witness :
  cmdline_by_pid stale_pid 4242 (globals boot) = (Raise NoSuchProcess, globals boot)
  ∧ window_options stale_pid (Some (mkWindow 7)) (globals boot)
    = (Raise NoSuchProcess, globals boot)
  ∧ (∀ xs, (run (FocusCheck stale_pid :: xs) boot).1 = Raise NoSuchProcess).
Proof.
  apply (process_lookup_failure_ends_run stale_pid (mkWindow 7) boot 4242);
    [reflexivity|reflexivity|lia|reflexivity|reflexivity].
Defined.

(** C4, as stated, fails: with no window in front the check at startup
    writes no ['active-window'] event, so not exactly one with payload
    [None]. *)
Lemma startup_without_window_writes_no_event :
  active_window_lines (written (exec (run [FocusCheck no_window]) boot)) = []
  ∧ ¬ (active_window_lines (written (exec (run [FocusCheck no_window]) boot)) = [None]).
Proof. split; [reflexivity|discriminate]. Qed.

Lemma no_window_no_active_window_event_witness :
  (∀ w, FocusCheck w ∈ [Callback "press"; FocusCheck no_window; Tick; FocusCheck no_window] →
        getActiveWindow w = None)
  ∧ (run [Callback "press"; FocusCheck no_window; Tick; FocusCheck no_window] boot).1 = Ok ()
  ∧ active_window_lines
      (written (exec (run [Callback "press"; FocusCheck no_window; Tick; FocusCheck no_window])
                  boot)) = [].
Proof.
  assert (∀ w, FocusCheck w ∈ [Callback "press"; FocusCheck no_window; Tick; FocusCheck no_window] →
               getActiveWindow w = None) as Habsent.
  { intros w Hin.
    apply elem_of_cons in Hin as [Heq|Hin]; [discriminate|].
    apply elem_of_cons in Hin as [Heq|Hin]; [by injection Heq as ->|].
    apply elem_of_cons in Hin as [Heq|Hin]; [discriminate|].
    apply elem_of_cons in Hin as [Heq|Hin]; [by injection Heq as ->|].
    by apply elem_of_nil in Hin. }
  split; [exact Habsent|].
  exact (no_window_no_active_window_event _ Habsent).
Defined.

Lemma new_pid_once_per_cache_lifetime_witness :
  (∃ g', cmdline_by_pid editor 100 {| cache := [(100%Z, ["vim"])]; stdout := [] |}
         = (Ok ["vim"], g')
         ∧ stdout g' = []
         ∧ cache_find 100 (cache g') = Some ["vim"])
  ∧ (1%Z ∉ keys (cache (resolve_all calls_257 empty_globals)))
  ∧ (∀ c, c ∈ tail calls_257 →
          c.2 ∈ keys (cache (resolve_all calls_257 empty_globals)))
  ∧ keys (cache (resolve_all refresh_calls empty_globals))
    = most_recent refresh_calls.*2
  ∧ evictions refresh_calls empty_globals = lru_evictions refresh_calls.*2
  ∧ lru_evictions refresh_calls.*2 = [2%Z]
  ∧ 1%Z ∈ most_recent refresh_calls.*2.
Proof.
  destruct new_pid_once_per_cache_lifetime
    as (_ & Hhit & _ & _ & _ & Hevict & Hlru).
  split.
  - apply (Hhit editor 100%Z {| cache := [(100%Z, ["vim"])]; stdout := [] |} ["vim"]).
    reflexivity.
  - destruct (Hevict (editor, 1%Z) (tail calls_257)) as (Hgone & Hkept & _).
    + reflexivity.
    + refine (bool_decide_unpack _ _). vm_compute. exact I.
    + intros c Hc. change ((editor, 1%Z) :: tail calls_257) with calls_257 in Hc.
      apply list_elem_of_fmap in Hc as (n & -> & _). by exists ["vim"].
    + split; [exact Hgone|]. split; [exact Hkept|].
      destruct (Hlru refresh_calls) as [Hkeys Hev].
      { intros c Hc. apply list_elem_of_fmap in Hc as (n & -> & _).
        by exists ["vim"]. }
      split; [exact Hkeys|]. split; [exact Hev|].
      split; [vm_compute; reflexivity|].
      refine (bool_decide_unpack _ _). vm_compute. exact I.
Defined.

Lemma class_identifiers_of_blob_witness :
  getWmClass cafe_class (mkWindow 7)
  = Ok [Some (str_of_code_points [99; 97; 102; 233]%N); Some (str_of_code_points [88]%N)]
  ∧ str_of_code_points [99; 97; 102; 233]%N = "café"
  ∧ getWmClass latin1_class (mkWindow 7) = Raise UnicodeDecodeError.
Proof.
  destruct class_identifiers_of_blob as (_ & Htexts & Hraise & _).
  split; [|split; [reflexivity|]].
  - apply (Htexts cafe_class (mkWindow 7)
             (Some [x63; x61; x66; xc3; xa9; x00; x00; x58; x00])
             [[99; 97; 102; 233]; [88]]%N).
    + reflexivity.
    + reflexivity.
    + repeat constructor; unfold scalar; lia.
  - apply (Hraise latin1_class (mkWindow 7) (Some [x61; x00; xe9]) [xe9]).
    + reflexivity.
    + right. left.
    + intros Hutf8. apply utf8_valid_iff in Hutf8. discriminate.
Defined.

Lemma bad_window_is_swallowed_witness :
  window_options (gone 7) (Some (mkWindow 7)) empty_globals = (Ok None, empty_globals)
  ∧ window_options closing (Some (mkWindow 7)) empty_globals
    = (Ok None, {| cache := [(100%Z, ["vim"])];
                   stdout := [("new-pid", NewPidData 100 ["vim"])] |}).
Proof.
  destruct bad_window_is_swallowed as (_ & _ & Hpid & Hname & _).
  split.
  - apply Hpid. reflexivity.
  - apply (Hname closing (mkWindow 7) empty_globals (Some 100%Z)); reflexivity.
Defined.

Lemma interval_iff_timeout_witness :
  ("input", InputData five_presses_data) ∈ written (exec (run five_presses) boot)
  ∧ (∃ timeout : bool,
        five_presses_data !! "timeout" = Some (JBool timeout)
        ∧ five_presses_data !! "interval" = if timeout then Some (JInt 20) else None).
Proof.
  assert (("input", InputData five_presses_data)
          ∈ written (exec (run five_presses) boot)) as Hin.
  { change (written (exec (run five_presses) boot))
      with [("input", InputData five_presses_data)].
    left. }
  split; [exact Hin|].
  exact (proj2 interval_iff_timeout five_presses five_presses_data Hin).
Defined.

Lemma new_pid_survives_failed_resolution_witness :
  later_fetch_fails closing (mkWindow 7)
  ∧ (∃ g', window_options closing (Some (mkWindow 7)) empty_globals = (Ok None, g')
           ∧ stdout g' = stdout empty_globals ++ [("new-pid", NewPidData 100 ["vim"])]
           ∧ cache_find 100 (cache g') = Some ["vim"]).
Proof.
  assert (later_fetch_fails closing (mkWindow 7)) as Hlater by (left; reflexivity).
  split; [exact Hlater|].
  apply (new_pid_survives_failed_resolution closing (mkWindow 7) empty_globals
           100 ["vim"]); [reflexivity|lia|reflexivity|reflexivity|exact Hlater].
Defined.

(** * Further properties *)

(** ** Input aggregator *)

(** X2. A flush of a bank that is not empty writes one ['input'] line whose
    ['stats'] is the bank as it was, and leaves the bank empty, so a flush
    right after it, with whatever [timeout], writes nothing. *)
Theorem flush_snapshots_and_resets (timeout : bool) (s : System) :
  input_stat (self s) ≠ ∅ →
  ∃ data s',
    flush_input_stat timeout s = (Ok (), s')
    ∧ written s' = written s ++ [("input", InputData data)]
    ∧ data !! "stats" = Some (JStats (input_stat (self s)))
    ∧ (∀ k v, data !! k = Some v → k = "timeout" ∨ k = "stats" ∨ k = "interval")
    ∧ input_stat (self s') = ∅
    ∧ (∀ timeout', flush_input_stat timeout' s' = (Ok (), s')).
Proof.
  intros Hne. rewrite flush_input_stat_nonempty by done.
  eexists _, _. split; [reflexivity|]. unfold written. cbn [globals stdout self input_stat].
  split; [reflexivity|]. split; [apply input_data_stats|]. split.
  - intros k v Hk. unfold input_data in Hk.
    destruct timeout;
      repeat (rewrite lookup_insert in Hk; case_decide; [subst; auto|]);
      by rewrite lookup_empty in Hk.
  - split; [done|]. intros timeout'. by apply flush_input_stat_empty.
Qed.

(** ** One check, case by case *)

(** A check either raises in the resolver, or finds the metadata
    unchanged, or finds it changed; [l] is what the resolver wrote. *)
Lemma process_window_cases w s :
  ∃ l, Forall is_new_pid l
       ∧ ((∃ e s', process_window w s = (Raise e, s')
                   ∧ self s' = self s
                   ∧ written s' = written s ++ l)
          ∨ (∃ s', process_window w s = (Ok (), s')
                   ∧ window_details (self s') = window_details (self s)
                   ∧ input_stat (self s') = input_stat (self s)
                   ∧ input_flush_interval (self s') = input_flush_interval (self s)
                   ∧ last_window (self s') = getActiveWindow w
                   ∧ written s' = written s ++ l)
          ∨ (∃ d s', process_window w s = (Ok (), s')
                     ∧ d ≠ window_details (self s)
                     ∧ window_details (self s') = d
                     ∧ input_stat (self s') = ∅
                     ∧ input_flush_interval (self s') = input_flush_interval (self s)
                     ∧ last_window (self s') = getActiveWindow w
                     ∧ written s' = written s ++ l ++ flush_lines (self s)
                                    ++ [("active-window", WindowData d)])).
Proof.
  destruct (window_options_stdout w (getActiveWindow w) (globals s)) as (l & Hl & Hnew).
  exists l. split; [done|].
  rewrite process_window_spec. cbv zeta. unfold written.
  destruct (window_options w (getActiveWindow w) (globals s)) as [[d|e] g];
    cbn [snd] in Hl.
  - destruct (decide (d = window_details (self s))) as [Hd|Hd].
    + right. left. eexists. split; [reflexivity|]. by cbn.
    + right. right. exists d. eexists. split; [reflexivity|]. cbn.
      rewrite Hl, <- !app_assoc. done.
  - left. exists e. eexists. split; [reflexivity|]. by cbn.
Qed.

Lemma total_reported_new_pid key l :
  Forall is_new_pid l → total_reported key l = 0%Z.
Proof.
  induction 1 as [|line l (pid & v & ->) _ IH]; [done|]. simpl. by rewrite IH.
Qed.

Lemma total_reported_flush_lines key a :
  total_reported key (flush_lines a) = default 0%Z (input_stat a !! key).
Proof.
  unfold flush_lines. case_decide as He.
  - by rewrite He, lookup_empty.
  - unfold total_reported, reported. cbn [foldr].
    rewrite decide_True by done. rewrite input_data_stats. lia.
Qed.







Lemma react_balance key x s s' :
  react x s = (Ok (), s') →
  (total_reported key (written s') + pending key s'
   = total_reported key (written s) + pending key s + callbacks key [x])%Z.
Proof.
  destruct x as [k| |w]; cbn [react callbacks].
  - intros Hr. pose proof (agg_step_balance key (CallRecord k) s) as Hb.
    unfold exec in Hb. cbn [agg_step] in Hb. rewrite Hr in Hb. cbn in Hb.
    destruct (decide (k = key)); lia.
  - intros Hr. pose proof (agg_step_balance key (CallFlush true) s) as Hb.
    unfold exec in Hb. cbn [agg_step] in Hb. rewrite Hr in Hb. cbn in Hb. lia.
  - intros Hr.
    destruct (process_window_cases w s) as (l & Hl & [Hc|[Hc|Hc]]).
    + destruct Hc as (e & t & Ht & _). congruence.
    + destruct Hc as (t & Ht & _ & Hstat & _ & _ & Hw).
      rewrite Hr in Ht. injection Ht as <-.
      unfold pending. rewrite Hstat, Hw, total_reported_app.
      rewrite (total_reported_new_pid key l) by done. lia.
    + destruct Hc as (d & t & Ht & _ & _ & Hstat & _ & _ & Hw).
      rewrite Hr in Ht. injection Ht as <-.
      unfold pending. rewrite Hstat, Hw, !total_reported_app.
      rewrite (total_reported_new_pid key l) by done.
      rewrite total_reported_flush_lines, lookup_empty. simpl. lia.
Qed.

(** X4. Conservation in whole runs.  In a run from the start state that
    no exception ends, whatever mix of callbacks, timer ticks and checks, the
    counts reported for a kind by all ['input'] lines plus the count still in
    the bank is the number of callbacks for that kind. *)
Theorem run_conserves_counts (key : string) (xs : list stimulus) :
  (run xs boot).1 = Ok () →
  (total_reported key (written (exec (run xs) boot)) + pending key (exec (run xs) boot)
   = callbacks key xs)%Z.
Proof.
  assert (∀ s, (run xs s).1 = Ok () →
               (total_reported key (written (exec (run xs) s))
                + pending key (exec (run xs) s)
                = total_reported key (written s) + pending key s + callbacks key xs)%Z)
    as Hgen.
  { induction xs as [|x xs IH]; intros s Hok.
    - unfold exec. simpl. lia.
    - unfold exec in *. rewrite run_cons in *.
      destruct (react x s) as [[[]|e] s'] eqn:Hr; [|done].
      rewrite (IH s' Hok). rewrite (react_balance key x s s' Hr).
      destruct x as [k| |w]; simpl; lia. }
  intros Hok. rewrite (Hgen boot Hok). unfold pending. simpl.
  rewrite lookup_empty. simpl. lia.
Qed.

(** ** Focus tracker *)

Lemma last_cons_default {A} (prev a : A) (l : list A) :
  default prev (last (a :: l)) = default a (last l).
Proof.
  destruct l as [|b l]; [done|].
  change (last (a :: b :: l)) with (last (b :: l)).
  destruct (last (b :: l)) eqn:Hlast; [done|].
  by apply last_None in Hlast.
Qed.

Lemma no_repeat_snoc prev l d :
  no_repeat prev l → d ≠ default prev (last l) → no_repeat prev (l ++ [d]).
Proof.
  revert prev. induction l as [|a l IH]; intros prev Hl Hd; simpl in *.
  - done.
  - destruct Hl as [Ha Hl]. split; [done|]. apply IH; [done|].
    by rewrite <- (last_cons_default prev).
Qed.

Lemma react_keeps_latest x s :
  window_details (self s) = latest_payload (active_window_lines (written s))
  ∧ no_repeat None (active_window_lines (written s)) →
  window_details (self (exec (react x) s))
  = latest_payload (active_window_lines (written (exec (react x) s)))
  ∧ no_repeat None (active_window_lines (written (exec (react x) s))).
Proof.
  intros [Hlatest Hrep]. destruct x as [key| |w]; cbn [react].
  - unfold exec. by rewrite update_input_stat_spec.
  - unfold exec. destruct (decide (input_stat (self s) = ∅)) as [He|Hne].
    + by rewrite flush_input_stat_empty.
    + rewrite flush_input_stat_nonempty by done. unfold written in *.
      cbn [snd self globals stdout window_details].
      rewrite active_window_lines_app. cbn. by rewrite app_nil_r.
  - unfold exec.
    destruct (process_window_cases w s) as (l & Hl & [Hc|[Hc|Hc]]).
    + destruct Hc as (e & s' & -> & Hself & Hw). cbn [snd].
      rewrite Hself, Hw, active_window_lines_app.
      rewrite (active_window_lines_new_pid l) by done. by rewrite app_nil_r.
    + destruct Hc as (s' & -> & Hwd & _ & _ & _ & Hw). cbn [snd].
      rewrite Hwd, Hw, active_window_lines_app.
      rewrite (active_window_lines_new_pid l) by done. by rewrite app_nil_r.
    + destruct Hc as (d & s' & -> & Hd & Hwd & _ & _ & _ & Hw). cbn [snd].
      rewrite Hwd, Hw, !active_window_lines_app.
      rewrite (active_window_lines_new_pid l) by done.
      rewrite active_window_lines_flush. cbn [app].
      change (active_window_lines [("active-window", WindowData d)]) with [d].
      split.
      * unfold latest_payload. by rewrite last_snoc.
      * apply no_repeat_snoc; [done|].
        unfold latest_payload in Hlatest. by rewrite <- Hlatest.
Qed.

(** X5. At every point of a run from the start state, the stored
    [window_details] is the payload of the latest ['active-window'] line
    ([None] when there is none yet), and no ['active-window'] line repeats the
    payload of the one before it; the first one is not [None]. *)
Theorem stored_details_is_latest_event (xs : list stimulus) :
  window_details (self (exec (run xs) boot))
  = latest_payload (active_window_lines (written (exec (run xs) boot)))
  ∧ no_repeat None (active_window_lines (written (exec (run xs) boot))).
Proof.
  apply (run_invariant
           (λ s, window_details (self s)
                 = latest_payload (active_window_lines (written s))
                 ∧ no_repeat None (active_window_lines (written s)))).
  - intros x s _. apply react_keeps_latest.
  - done.
Qed.

Lemma announced_app_l p out l : announced p out → announced p (out ++ l).
Proof. intros [v Hv]. exists v. apply elem_of_app. by left. Qed.

Lemma elem_of_removelast {A} (x : A) (l : list A) : x ∈ removelast l → x ∈ l.
Proof.
  rewrite removelast_take. intros Hin.
  apply elem_of_take in Hin as (i & Hin & _). by apply list_elem_of_lookup_2 in Hin.
Qed.

Lemma resolve_keeps_announced call g :
  cache_announced g → cache_announced (exec (resolve call) g).
Proof.
  intros Hann. unfold exec, cache_announced.
  destruct (resolve_cases call g)
    as [(v & Hfind & ->)|[(e & Hfind & Hps & ->)|(v & Hfind & Hps & ->)]];
    cbn [snd cache stdout set_cache].
  - change (keys ((call.2, v) :: ?l)) with (call.2 :: keys l).
    rewrite keys_cache_remove. intros p Hp.
    apply elem_of_cons in Hp as [->|Hp].
    + apply Hann. by apply cache_find_Some in Hfind.
    + apply list_elem_of_filter in Hp as [_ Hp]. by apply Hann.
  - done.
  - rewrite keys_filled_raw. intros p Hp.
    apply elem_of_cons in Hp as [->|Hp].
    + exists v. apply elem_of_app. right. left.
    + apply announced_app_l, Hann.
      case_decide; [by apply elem_of_removelast|done].
Qed.

Lemma resolve_caches call g v :
  (resolve call g).1 = Ok v → call.2 ∈ keys (cache (exec (resolve call) g)).
Proof.
  unfold exec.
  destruct (resolve_cases call g)
    as [(v' & Hfind & ->)|[(e & Hfind & Hps & ->)|(v' & Hfind & Hps & ->)]];
    cbn [fst snd cache set_cache]; [|done|].
  - intros _. change (keys ((call.2, v') :: ?l)) with (call.2 :: keys l). left.
  - intros _. rewrite keys_filled_raw. left.
Qed.

Lemma discover_announces w pid g :
  cache_announced g →
  cache_announced (discover w pid g).2
  ∧ (∀ p, pid = Some p → p ≠ 0%Z → (discover w pid g).1 = Ok () →
          p ∈ keys (cache (discover w pid g).2)).
Proof.
  intros Hann. unfold discover.
  destruct pid as [p|]; cbn [pid_truthy]; [|by split].
  destruct (decide (p = 0%Z)) as [->|Hp]; [split; [done|]; by intros ? [= <-]|].
  unfold mbind, M_bind, mret, M_ret.
  pose proof (resolve_keeps_announced (w, p) g Hann) as Hann'.
  pose proof (resolve_caches (w, p) g) as Hin.
  unfold exec, resolve in Hann', Hin. cbn [fst snd] in Hann', Hin.
  destruct (cmdline_by_pid w p g) as [[v|e] g1]; cbn [fst snd] in *.
  - split; [done|]. intros q [= <-] _ _. by apply (Hin v).
  - split; [done|]. by intros q _ _ ?.
Qed.

Lemma window_options_announces w win g :
  cache_announced g →
  cache_announced (window_options w win g).2
  ∧ (∀ md p, (window_options w win g).1 = Ok (Some md) →
             md_pid md = Some p → p ≠ 0%Z →
             announced p (stdout (window_options w win g).2)).
Proof.
  intros Hann. destruct win as [win|]; [|by split].
  rewrite window_options_steps.
  destruct (getWmPid w win) as [pid|e];
    [|rewrite swallow_state; split; [done|]; unfold swallow; by case_decide].
  destruct (discover_announces w pid g Hann) as [Hann1 Hin].
  destruct (discover w pid g) as [[[]|e] g1]; cbn [fst snd] in *;
    [|rewrite swallow_state; split; [done|]; unfold swallow; by case_decide].
  destruct (getWmName w win) as [name|e];
    [|rewrite swallow_state; split; [done|]; unfold swallow; by case_decide].
  destruct (isWmFullscreen w win) as [fs|e];
    [|rewrite swallow_state; split; [done|]; unfold swallow; by case_decide].
  destruct (getWmClass w win) as [cls|e];
    [|rewrite swallow_state; split; [done|]; unfold swallow; by case_decide].
  cbn [fst snd]. split; [done|].
  intros md p [= <-] Hpid Hp. cbn [md_pid] in Hpid.
  apply Hann1, Hin; done.
Qed.

Lemma pids_announced_app out l :
  pids_announced out →
  Forall (λ line, ∀ d, line ≠ ("active-window", WindowData d)) l →
  pids_announced (out ++ l).
Proof.
  intros Hout Hl i md p Hi Hpid Hp. unfold record_line in *.
  destruct (decide (i < length out)) as [Hlt|Hge].
  - rewrite lookup_app_l in Hi by done.
    rewrite take_app_le by lia. by apply (Hout i md p).
  - rewrite lookup_app_r in Hi by lia.
    apply list_elem_of_lookup_2 in Hi.
    rewrite Forall_forall in Hl. by destruct (Hl _ Hi (Some md)).
Qed.

Lemma pids_announced_snoc out d :
  pids_announced out →
  (∀ md p, d = Some md → md_pid md = Some p → p ≠ 0%Z → announced p out) →
  pids_announced (out ++ [("active-window", WindowData d)]).
Proof.
  intros Hout Hd i md p Hi Hpid Hp. unfold record_line in *.
  destruct (decide (i < length out)) as [Hlt|Hge].
  - rewrite lookup_app_l in Hi by done.
    rewrite take_app_le by lia. by apply (Hout i md p).
  - rewrite lookup_app_r in Hi by lia.
    destruct (i - length out) as [|n] eqn:Hn; cbn in Hi; [|done].
    injection Hi as ->.
    rewrite take_app_length' by lia. by apply (Hd md p).
Qed.

Lemma not_active_window_new_pid l :
  Forall is_new_pid l →
  Forall (λ line, ∀ d, line ≠ ("active-window", WindowData d)) l.
Proof.
  intros Hl. eapply Forall_impl; [exact Hl|].
  intros line (pid & v & ->) d. discriminate.
Qed.

Lemma not_active_window_flush_lines a :
  Forall (λ line, ∀ d, line ≠ ("active-window", WindowData d)) (flush_lines a).
Proof. unfold flush_lines. case_decide; repeat constructor. intros d. discriminate. Qed.

Lemma react_keeps_announced x s :
  cache_announced (globals s) ∧ pids_announced (written s) →
  cache_announced (globals (exec (react x) s))
  ∧ pids_announced (written (exec (react x) s)).
Proof.
  intros [Hcache Hout]. destruct x as [key| |w]; cbn [react].
  - unfold exec. by rewrite update_input_stat_spec.
  - unfold exec. destruct (decide (input_stat (self s) = ∅)) as [He|Hne].
    + by rewrite flush_input_stat_empty.
    + rewrite flush_input_stat_nonempty by done. unfold written in *.
      cbn [snd globals stdout]. split.
      * intros p Hp. cbn [cache stdout] in *. by apply announced_app_l, Hcache.
      * apply pids_announced_app; [done|]. repeat constructor. intros d. discriminate.
  - unfold exec, written in *. rewrite process_window_spec. cbv zeta.
    destruct (window_options_announces w (getActiveWindow w) (globals s) Hcache)
      as [Hcache1 Hpid].
    destruct (window_options_stdout w (getActiveWindow w) (globals s))
      as (l & Hl & Hnew).
    assert (pids_announced (stdout (window_options w (getActiveWindow w) (globals s)).2))
      as Hout1.
    { rewrite Hl. apply pids_announced_app; [done|].
      by apply not_active_window_new_pid. }
    destruct (window_options w (getActiveWindow w) (globals s)) as [[d|e] g];
      cbn [fst snd] in *; [|by split].
    case_decide; cbn [snd globals stdout cache]; [by split|].
    split.
    + intros p Hp. cbn [cache stdout] in *. by apply announced_app_l, Hcache1.
    + rewrite app_assoc. apply pids_announced_snoc.
      * apply pids_announced_app; [done|]. apply not_active_window_flush_lines.
      * intros md p -> Hmd Hp. apply announced_app_l. by apply (Hpid md p).
Qed.

(** X7. In every run from the start state, when an ['active-window'] line
    names a pid other than 0, a ['new-pid'] line for that pid stands earlier
    in the output: the command line of a reported process has always been
    written before. *)
Theorem reported_pid_announced_before
  (xs : list stimulus) (i : nat) (md : WindowMetadata) (p : Z) :
  written (exec (run xs) boot) !! i = Some ("active-window", WindowData (Some md)) →
  md_pid md = Some p →
  p ≠ 0%Z →
  ∃ v, ("new-pid", NewPidData p v) ∈ take i (written (exec (run xs) boot)).
Proof.
  intros Hi Hpid Hp.
  assert (cache_announced (globals (exec (run xs) boot))
          ∧ pids_announced (written (exec (run xs) boot))) as [_ Hall].
  { apply (run_invariant
             (λ s, cache_announced (globals s) ∧ pids_announced (written s))).
    - intros x s _. apply react_keeps_announced.
    - split.
      + intros q Hq. by apply elem_of_nil in Hq.
      + intros j md' q Hj. done. }
  by apply (Hall i md p).
Qed.

Lemma mask_after_app reqs1 reqs2 init win :
  mask_after (reqs1 ++ reqs2) init win
  = mask_after reqs2 (mask_after reqs1 init win) win.
Proof.
  revert init. induction reqs1 as [|[win' mask] reqs1 IH]; intros init; [done|].
  simpl. apply IH.
Qed.

(** The mask of [win] after the requests of a check that finds [active]
    in front, when window objects can be made for every handle. *)
Lemma mask_after_resubscribe w active a init win :
  (∀ i, create_resource_object w i = Some i) →
  mask_after (resubscribe w active a) init win
  = if decide (active = last_window a) then init
    else if decide (active = Some win) then PropertyChangeMask
    else if decide (last_window a = Some win) then NoEventMask
    else init.
Proof.
  intros Hobj. unfold resubscribe, window_obj.
  destruct (decide (active = last_window a)) as [Heq|Hne]; [done|].
  destruct (last_window a) as [old|], active as [new|];
    rewrite ?Hobj; cbn [app mask_after].
  - destruct (decide (Some new = Some win)) as [[= ->]|Hnew].
    + by rewrite (decide_True (P := win = win)).
    + rewrite (decide_False (P := new = win)) by congruence.
      destruct (decide (Some old = Some win)) as [[= ->]|Hold].
      * by rewrite (decide_True (P := win = win)).
      * by rewrite (decide_False (P := old = win)) by congruence.
  - rewrite (decide_False (P := None = Some win)) by done.
    destruct (decide (Some old = Some win)) as [[= ->]|Hold].
    + by rewrite (decide_True (P := win = win)).
    + by rewrite (decide_False (P := old = win)) by congruence.
  - destruct (decide (Some new = Some win)) as [[= ->]|Hnew].
    + by rewrite (decide_True (P := win = win)).
    + rewrite (decide_False (P := new = win)) by congruence.
      by rewrite (decide_False (P := None = Some win)).
  - done.
Qed.

Lemma react_keeps_subscription root x s s' :
  (∀ w, x = FocusCheck w →
        (∀ i, create_resource_object w i = Some i) ∧ getActiveWindow w ≠ Some root) →
  react x s = (Ok (), s') →
  last_window (self s) ≠ Some root
  ∧ (∀ win, mask_of (xserver s) win = PropertyChangeMask
            ↔ win = root ∨ last_window (self s) = Some win) →
  last_window (self s') ≠ Some root
  ∧ (∀ win, mask_of (xserver s') win = PropertyChangeMask
            ↔ win = root ∨ last_window (self s') = Some win).
Proof.
  intros Hobj Hr [Hroot Hsub]. destruct x as [key| |w]; cbn [react] in Hr.
  - rewrite update_input_stat_spec in Hr. by injection Hr as <-.
  - destruct (decide (input_stat (self s) = ∅)) as [He|Hne].
    + rewrite flush_input_stat_empty in Hr by done. by injection Hr as <-.
    + rewrite flush_input_stat_nonempty in Hr by done. by injection Hr as <-.
  - destruct (Hobj w eq_refl) as [Hmake Hnotroot].
    rewrite process_window_spec in Hr. cbv zeta in Hr.
    assert (xserver s' = xserver s ++ resubscribe w (getActiveWindow w) (self s)
            ∧ last_window (self s') = getActiveWindow w) as [-> ->].
    { destruct (window_options w (getActiveWindow w) (globals s)) as [[d|e] g];
        [|done].
      destruct (decide (d = window_details (self s))); by injection Hr as <-. }
    split; [done|]. intros win.
    unfold mask_of in *. rewrite mask_after_app.
    rewrite (mask_after_resubscribe _ _ _ _ _ Hmake).
    specialize (Hsub win).
    destruct (decide (getActiveWindow w = last_window (self s))) as [Heq|Hne].
    + by rewrite Heq.
    + destruct (decide (getActiveWindow w = Some win)) as [Hact|Hact]; [tauto|].
      destruct (decide (last_window (self s) = Some win)) as [Hlast|Hlast].
      * split; [done|]. intros [->|?]; [|done]. by destruct Hroot.
      * rewrite Hsub. tauto.
Qed.

(** X8. Subscription follows the focus.  Take a run from the state in
    which [start] makes its first check, that no exception ends, in which a
    window object can be made for every handle and the root window never is
    the active window.  After its last check the requests sent have selected
    property events on the root window and on the window in [last_window],
    and on no other window. *)
Theorem subscription_follows_focus (root : Window) (xs : list stimulus) :
  (run xs (started root)).1 = Ok () →
  (∀ w, FocusCheck w ∈ xs →
        (∀ i, create_resource_object w i = Some i) ∧ getActiveWindow w ≠ Some root) →
  ∀ win,
    mask_of (xserver (exec (run xs) (started root))) win = PropertyChangeMask
    ↔ win = root ∨ last_window (self (exec (run xs) (started root))) = Some win.
Proof.
  assert (∀ s,
            (run xs s).1 = Ok () →
            (∀ w, FocusCheck w ∈ xs →
                  (∀ i, create_resource_object w i = Some i)
                  ∧ getActiveWindow w ≠ Some root) →
            last_window (self s) ≠ Some root
            ∧ (∀ win, mask_of (xserver s) win = PropertyChangeMask
                      ↔ win = root ∨ last_window (self s) = Some win) →
            ∀ win, mask_of (xserver (exec (run xs) s)) win = PropertyChangeMask
                   ↔ win = root ∨ last_window (self (exec (run xs) s)) = Some win)
    as Hgen.
  { induction xs as [|x xs IH]; intros s Hok Hobj Hsub; [by destruct Hsub|].
    unfold exec in *. rewrite run_cons in *.
    destruct (react x s) as [[[]|e] s'] eqn:Hr; [|done].
    apply IH; [done| |].
    - intros w Hw. apply Hobj. by right.
    - apply (react_keeps_subscription root x s s'); [|done|done].
      intros w ->. apply Hobj. left. }
  intros Hok Hobj. apply Hgen; [done|done|].
  split; [done|]. intros win. unfold mask_of, started. cbn.
  destruct (decide (root = win)) as [->|Hne].
  - split; [by left|done].
  - split; [done|]. intros [->|?]; done.
Qed.

(** ** Window metadata resolver and cache *)

Lemma cache_remove_cons_same p v c :
  cache_remove p ((p, v) :: c) = cache_remove p c.
Proof. unfold cache_remove. simpl. by rewrite bool_decide_eq_true_2. Qed.

Lemma cache_remove_absent p c : cache_find p c = None → cache_remove p c = c.
Proof.
  unfold cache_remove. induction c as [|[k v] c IH]; [done|]. simpl.
  destruct (decide (k = p)) as [->|Hne]; [done|]. intros Hfind.
  rewrite bool_decide_eq_false_2 by done. simpl. by rewrite IH.
Qed.

Lemma cache_find_cache_remove p c : cache_find p (cache_remove p c) = None.
Proof.
  apply cache_find_None. rewrite keys_cache_remove, list_elem_of_filter.
  by intros [? _].
Qed.

Lemma cache_find_removelast p c :
  cache_find p c = None → cache_find p (removelast c) = None.
Proof.
  rewrite !cache_find_None, keys_removelast. intros Hnot Hin.
  by apply Hnot, elem_of_removelast.
Qed.

Lemma cmdline_by_pid_again w p g :
  cmdline_by_pid w p (cmdline_by_pid w p g).2 = cmdline_by_pid w p g.
Proof.
  destruct (resolve_cases (w, p) g)
    as [(v & Hfind & Hr)|[(e & Hfind & Hps & Hr)|(v & Hfind & Hps & Hr)]];
    unfold resolve in Hr; cbn [fst snd] in *; rewrite Hr; cbn [snd].
  - rewrite (cmdline_by_pid_hit w p _ v) by (cbn; by rewrite decide_True).
    cbn [set_cache cache stdout].
    by rewrite cache_remove_cons_same, (cache_remove_absent p (cache_remove p _))
      by apply cache_find_cache_remove.
  - by rewrite Hr.
  - rewrite (cmdline_by_pid_hit w p _ v) by (cbn; by rewrite decide_True).
    unfold filled, set_cache. cbn [cache stdout].
    rewrite cache_remove_cons_same. f_equal. f_equal. f_equal.
    apply cache_remove_absent. case_decide; [by apply cache_find_removelast|done].
Qed.

Lemma discover_again w pid g :
  discover w pid (discover w pid g).2 = discover w pid g.
Proof.
  unfold discover. destruct (pid_truthy pid) as [p|]; [|done].
  unfold mbind, M_bind, mret, M_ret.
  pose proof (cmdline_by_pid_again w p g) as Hagain.
  destruct (cmdline_by_pid w p g) as [[v|e] g1]; cbn [snd] in *; by rewrite Hagain.
Qed.

(** X9. Resolving the same window again in the same world gives the same
    outcome and changes nothing more: the second call returns, or raises,
    what the first did, and leaves cache and output as the first left them. *)
Theorem window_options_again (w : XWorld) (win : option Window) (g : Globals) :
  window_options w win (window_options w win g).2 = window_options w win g.
Proof.
  destruct win as [win|]; [|done].
  rewrite (window_options_steps w win g).
  destruct (getWmPid w win) as [pid|e] eqn:Hpid;
    [|rewrite swallow_state, window_options_steps; by rewrite Hpid].
  pose proof (discover_again w pid g) as Hagain.
  assert (∀ g1, discover w pid g1 = discover w pid g →
                (discover w pid g).2 = g1 →
                window_options w (Some win) g1
                = match discover w pid g with
                  | (Raise e, g1) => swallow e g1
                  | (Ok _, g1) =>
                      match getWmName w win with
                      | Raise e => swallow e g1
                      | Ok name =>
                          match isWmFullscreen w win with
                          | Raise e => swallow e g1
                          | Ok fullscreen =>
                              match getWmClass w win with
                              | Raise e => swallow e g1
                              | Ok class =>
                                  (Ok (Some {| md_name := name; md_wid := win_id win;
                                               md_pid := pid;
                                               md_fullscreen := fullscreen;
                                               md_class := class |}), g1)
                              end
                          end
                      end
                  end) as Hsame.
  { intros g1 Hd Hg1. rewrite window_options_steps, Hpid, Hd.
    destruct (discover w pid g) as [[[]|e] g2]; cbn [snd] in Hg1; by subst. }
  destruct (discover w pid g) as [[[]|e] g1] eqn:Hd; cbn [snd] in Hagain.
  - destruct (getWmName w win) as [name|e].
    + destruct (isWmFullscreen w win) as [fs|e].
      * destruct (getWmClass w win) as [cls|e].
        -- cbn [snd]. by apply Hsame.
        -- rewrite swallow_state. by apply Hsame.
      * rewrite swallow_state. by apply Hsame.
    + rewrite swallow_state. by apply Hsame.
  - rewrite swallow_state. by apply Hsame.
Qed.

Lemma decode_utf8_nonempty v s :
  bytes_truthy v = true → decode_utf8 v = Ok s → s ≠ "".
Proof.
  unfold decode_utf8. destruct v as [|b v]; [done|]. intros _.
  destruct (utf8_valid (b :: v)); [|done]. intros [= <-]. done.
Qed.

Lemma b2s_nonempty value : b2s value ≠ Ok (Some "").
Proof.
  unfold b2s. destruct value as [v|]; [|done].
  destruct (bytes_truthy v) eqn:Hv; cbn [negb]; [|done].
  unfold mbind, result_bind.
  destruct (decode_utf8 v) as [s|e] eqn:Hs; [|done].
  intros [= ->]. by apply (decode_utf8_nonempty v "" Hv Hs).
Qed.

Lemma map_raising_b2s_nonempty (l : list bytes) cls :
  Forall (λ v, bytes_truthy v = true) l →
  map_raising (λ v, b2s (Some v)) l = Ok cls →
  Forall (λ c : option string, ∃ s, c = Some s ∧ s ≠ "") cls.
Proof.
  intros Hl. revert cls. induction Hl as [|v l Hv _ IH]; intros cls; cbn [map_raising].
  - intros [= <-]. constructor.
  - rewrite (b2s_truthy v Hv). unfold mbind, result_bind.
    destruct (decode_utf8 v) as [s|e] eqn:Hs; [|done].
    destruct (map_raising (λ v, b2s (Some v)) l) as [cs|e]; [|done].
    intros [= <-]. constructor; [|by apply IH].
    exists s. split; [done|]. by apply (decode_utf8_nonempty v).
Qed.

Lemma getWmClass_nonempty w win cls :
  getWmClass w win = Ok cls →
  Forall (λ c : option string, ∃ s, c = Some s ∧ s ≠ "") cls.
Proof.
  unfold getWmClass. destruct (getProperty_WM_CLASS w win) as [value|e]; [|done].
  cbn [mbind result_bind]. apply map_raising_b2s_nonempty.
  apply List.Forall_forall. intros seg Hin. by apply List.filter_In in Hin as [_ ?].
Qed.

(** X10. Metadata returned by [window_options] is well formed: it comes
    from a present handle and carries the id of that handle, the pid that
    [getWmPid] gave and the flag that [isWmFullscreen] gave; its name is
    [None] or a non-empty text, never the empty text; and each class entry is
    a non-empty text, never [None]. *)
Theorem resolved_metadata_well_formed
  (w : XWorld) (win : option Window) (g g1 : Globals) (md : WindowMetadata) :
  window_options w win g = (Ok (Some md), g1) →
  ∃ h, win = Some h
       ∧ md_wid md = win_id h
       ∧ getWmPid w h = Ok (md_pid md)
       ∧ isWmFullscreen w h = Ok (md_fullscreen md)
       ∧ md_name md ≠ Some ""
       ∧ Forall (λ c : option string, ∃ s, c = Some s ∧ s ≠ "") (md_class md).
Proof.
  destruct win as [h|]; [|done]. rewrite window_options_steps. intros Hwo.
  exists h. split; [done|].
  destruct (getWmPid w h) as [pid|e];
    [|unfold swallow in Hwo; by case_decide].
  destruct (discover w pid g) as [[[]|e] g2];
    [|unfold swallow in Hwo; by case_decide].
  destruct (getWmName w h) as [name|e] eqn:Hname;
    [|unfold swallow in Hwo; by case_decide].
  destruct (isWmFullscreen w h) as [fs|e];
    [|unfold swallow in Hwo; by case_decide].
  destruct (getWmClass w h) as [cls|e] eqn:Hcls;
    [|unfold swallow in Hwo; by case_decide].
  injection Hwo as <- <-. cbn.
  split; [done|]. split; [done|]. split; [done|]. split.
  - intros ->. unfold getWmName in Hname.
    destruct (super_getWmName w h) as [value|e]; [|done].
    by apply (b2s_nonempty value).
  - by apply (getWmClass_nonempty w h).
Qed.

Lemma discover_writes w pid g :
  ∃ l, stdout (discover w pid g).2 = stdout g ++ l
       ∧ length l ≤ 1
       ∧ ∀ line, line ∈ l →
           ∃ p v, pid = Some p ∧ p ≠ 0%Z
                  ∧ cache_find p (cache g) = None
                  ∧ psutil_cmdline w p = Ok v
                  ∧ line = ("new-pid", NewPidData p v).
Proof.
  unfold discover. destruct pid as [p|]; cbn [pid_truthy].
  - destruct (decide (p = 0%Z)) as [->|Hp].
    + exists []. rewrite app_nil_r. split; [done|]. split; [simpl; lia|].
      intros line Hin. by apply elem_of_nil in Hin.
    + unfold mbind, M_bind, mret, M_ret.
      destruct (resolve_cases (w, p) g)
        as [(v & Hfind & Hr)|[(e & Hfind & Hps & Hr)|(v & Hfind & Hps & Hr)]];
        unfold resolve in Hr; cbn [fst snd] in *; rewrite Hr; cbn [snd stdout set_cache].
      * exists []. rewrite app_nil_r. split; [done|]. split; [simpl; lia|].
        intros line Hin. by apply elem_of_nil in Hin.
      * exists []. rewrite app_nil_r. split; [done|]. split; [simpl; lia|].
        intros line Hin. by apply elem_of_nil in Hin.
      * eexists. split; [reflexivity|]. split; [simpl; lia|].
        intros line Hin. apply elem_of_cons in Hin as [->|Hin];
          [|by apply elem_of_nil in Hin].
        by exists p, v.
  - exists []. rewrite app_nil_r. split; [done|]. split; [simpl; lia|].
    intros line Hin. by apply elem_of_nil in Hin.
Qed.

(** X11. What a resolution does to cache and output.  When the handle is
    absent, or the window has no pid or the pid 0, [window_options] leaves
    cache and output as they were.  In every case it writes at most one line,
    and that line is the ['new-pid'] of the window's own pid, which was not
    cached, with the command line that the process table gave. *)
Theorem resolver_writes_only_own_new_pid (w : XWorld) (win : option Window) (g : Globals) :
  ((∀ h p, win = Some h → getWmPid w h = Ok (Some p) → p = 0%Z) →
   (window_options w win g).2 = g)
  ∧ (∃ l, stdout (window_options w win g).2 = stdout g ++ l
          ∧ length l ≤ 1
          ∧ ∀ line, line ∈ l →
              ∃ h p v, win = Some h
                       ∧ getWmPid w h = Ok (Some p) ∧ p ≠ 0%Z
                       ∧ cache_find p (cache g) = None
                       ∧ psutil_cmdline w p = Ok v
                       ∧ line = ("new-pid", NewPidData p v)).
Proof.
  destruct win as [h|].
  - rewrite window_options_state. destruct (getWmPid w h) as [pid|e] eqn:Hpid.
    + split.
      * intros Hzero. unfold discover. destruct pid as [p|]; [|done].
        rewrite (Hzero h p eq_refl Hpid). done.
      * destruct (discover_writes w pid g) as (l & Hl & Hlen & Hlines).
        exists l. split; [done|]. split; [done|].
        intros line Hin. destruct (Hlines line Hin) as (p & v & -> & ?).
        by exists h, p, v.
    + split; [done|]. exists []. rewrite app_nil_r. split; [done|].
      split; [simpl; lia|]. intros line Hin. by apply elem_of_nil in Hin.
  - split; [done|]. exists []. rewrite app_nil_r. split; [done|].
    split; [simpl; lia|]. intros line Hin. by apply elem_of_nil in Hin.
Qed.

(** X12. A window name that is not empty and not UTF-8 ends the run: with
    the pid step done, [b2s] raises [UnicodeDecodeError], which
    [window_options] does not catch, so the check and the run raise it. *)
Theorem undecodable_name_ends_run
  (w : XWorld) (win : Window) (s : System) (pid : option Z) (g1 : Globals) (v : bytes) :
  getActiveWindow w = Some win →
  getWmPid w win = Ok pid →
  discover w pid (globals s) = (Ok (), g1) →
  super_getWmName w win = Ok (Some v) →
  v ≠ [] →
  utf8_valid v = false →
  window_options w (Some win) (globals s) = (Raise UnicodeDecodeError, g1)
  ∧ (∀ xs, (run (FocusCheck w :: xs) s).1 = Raise UnicodeDecodeError).
Proof.
  intros Hactive Hpid Hdisc Hname Hv Hvalid.
  assert (getWmName w win = Raise UnicodeDecodeError) as Hraise.
  { unfold getWmName. rewrite Hname. cbn [mbind result_bind].
    unfold b2s, decode_utf8. destruct v as [|b v]; [done|].
    cbn [bytes_truthy negb]. by rewrite Hvalid. }
  assert (window_options w (Some win) (globals s) = (Raise UnicodeDecodeError, g1))
    as Hwo.
  { by rewrite window_options_steps, Hpid, Hdisc, Hraise. }
  split; [done|]. intros xs. rewrite run_cons. cbn [react].
  rewrite process_window_spec. cbv zeta. by rewrite Hactive, Hwo.
Qed.

(** X14. Only a check with a window in front can end a run, and never
    with [BadWindow]: callbacks and timer ticks always return, and so does a
    check that finds no active window. *)
Theorem run_ends_only_in_resolver (xs : list stimulus) (s : System) (e : exn) :
  (run xs s).1 = Raise e →
  e ≠ BadWindow
  ∧ ∃ w win, FocusCheck w ∈ xs ∧ getActiveWindow w = Some win.
Proof.
  revert s. induction xs as [|x xs IH]; intros s; [done|].
  rewrite run_cons.
  destruct (react x s) as [[[]|e'] s'] eqn:Hr.
  - intros Hrun. destruct (IH s' Hrun) as (He & w & win & Hw & Hwin).
    split; [done|]. exists w, win. split; [by right|done].
  - cbn [fst]. intros [= ->]. destruct x as [key| |w]; cbn [react] in Hr.
    + by rewrite update_input_stat_spec in Hr.
    + destruct (decide (input_stat (self s) = ∅)) as [He|Hne].
      * by rewrite flush_input_stat_empty in Hr.
      * by rewrite flush_input_stat_nonempty in Hr.
    + rewrite process_window_spec in Hr. cbv zeta in Hr.
      pose proof (window_options_not_BadWindow w (getActiveWindow w) (globals s))
        as Hnot.
      destruct (getActiveWindow w) as [win|] eqn:Hactive.
      * destruct (window_options w (Some win) (globals s)) as [[d|e'] g];
          [by case_decide|].
        injection Hr as -> _. split; [by intros ->|].
        exists w, win. split; [left|done].
      * cbn in Hr. by case_decide.
Qed.

Lemma resolve_front call g v :
  (resolve call g).1 = Ok v →
  ∃ K, keys (cache (exec (resolve call) g)) = call.2 :: K
       ∧ ∀ k, k ∈ K → k ∈ keys (cache g).
Proof.
  unfold exec.
  destruct (resolve_cases call g)
    as [(v' & Hfind & ->)|[(e & Hfind & Hps & ->)|(v' & Hfind & Hps & ->)]];
    cbn [fst snd cache set_cache]; [|done|]; intros _.
  - change (keys ((call.2, v') :: ?l)) with (call.2 :: keys l).
    eexists. split; [reflexivity|]. rewrite keys_cache_remove.
    intros k Hk. by apply list_elem_of_filter in Hk as [_ ?].
  - rewrite keys_filled_raw. eexists. split; [reflexivity|].
    intros k Hk. case_decide; [by apply elem_of_removelast|done].
Qed.

(** X15. Use refreshes an entry.  After a call for [p] that returns, hit
    or fill, [p] stays cached through the fills of up to 255 other pids: it
    takes 256 fills without a call for [p] to push it out. *)
Theorem recently_used_survives
  (w : XWorld) (p : Z) (g : Globals) (v : list string) (calls : list (XWorld * Z)) :
  cache_ok g →
  (cmdline_by_pid w p g).1 = Ok v →
  NoDup calls.*2 →
  (∀ c, c ∈ calls → c.2 ≠ p ∧ c.2 ∉ keys (cache g)) →
  (∀ c, c ∈ calls → ∃ v', psutil_cmdline c.1 c.2 = Ok v') →
  length calls < maxsize →
  p ∈ keys (cache (resolve_all calls (exec (cmdline_by_pid w p) g))).
Proof.
  intros Hok Hcall Hnodup Hfresh Hfound Hlen.
  destruct (resolve_front (w, p) g v Hcall) as (K & Hkeys & HK).
  pose proof (resolve_cache_ok (w, p) g Hok) as Hok1.
  unfold resolve in *. cbn [fst snd] in *.
  rewrite resolve_all_distinct; [|done|done| |done].
  - rewrite Hkeys. apply elem_of_take. exists (length calls). split; [|done].
    apply list_lookup_middle. by rewrite length_reverse, length_fmap.
  - intros c Hc. rewrite Hkeys. destruct (Hfresh c Hc) as [Hne Hnot].
    intros Hin. apply elem_of_cons in Hin as [?|Hin]; [done|].
    by apply Hnot, HK.
Qed.

Lemma map_raising_nil {A B} (f : A → result B) (l : list A) :
  map_raising f l = Ok [] ↔ l = [].
Proof.
  split; [|by intros ->]. destruct l as [|a l]; [done|]. cbn [map_raising].
  unfold mbind, result_bind. destruct (f a); [|done].
  by destruct (map_raising f l).
Qed.

Lemma filter_not_nul_nil (blob : bytes) :
  List.filter (λ b, negb (bool_decide (b = x00))) blob = [] ↔ Forall (λ b, b = x00) blob.
Proof.
  induction blob as [|b blob IH]; [by split; [constructor|]|]. simpl.
  destruct (decide (b = x00)) as [->|Hb].
  - rewrite bool_decide_eq_true_2 by done. simpl. rewrite IH.
    split; [by constructor|]. by intros [_ ?]%Forall_cons.
  - rewrite bool_decide_eq_false_2 by done. simpl.
    split; [done|]. by intros [? _]%Forall_cons.
Qed.

Lemma concat_truthy_nil (l : list bytes) :
  Forall (λ seg, bytes_truthy seg = true) l → concat l = [] → l = [].
Proof.
  destruct 1 as [|seg l Hseg _]; [done|]. simpl.
  destruct seg; [done|]. done.
Qed.

Lemma nul_fields_nil blob : nul_fields blob = [] ↔ Forall (λ b, b = x00) blob.
Proof.
  rewrite <- filter_not_nul_nil, <- concat_split_nul, <- concat_filter_truthy,
    filter_split_nul.
  split; [by intros ->|].
  apply concat_truthy_nil. rewrite <- filter_split_nul.
  apply List.Forall_forall. intros seg Hin. by apply List.filter_In in Hin as [_ ?].
Qed.

(** X16. [getWmClass] returns the empty list exactly when the class
    property is missing, empty, or made of NUL bytes only. *)
Theorem no_class_iff_only_nul (w : XWorld) (win : Window) (value : option bytes) :
  getProperty_WM_CLASS w win = Ok value →
  getWmClass w win = Ok [] ↔ Forall (λ b, b = x00) (default [] value).
Proof.
  intros Hprop. unfold getWmClass. rewrite Hprop. cbn [mbind result_bind].
  assert (match value with
          | Some v => if bytes_truthy v then v else []
          | None => []
          end = default [] value) as ->.
  { by destruct value as [[|b v]|]. }
  rewrite map_raising_nil, filter_split_nul. apply nul_fields_nil.
Qed.

(** ** The further scenarios, run *)

Lemma flush_snapshots_and_resets_witness :
  input_stat (self (exec (update_input_stat "press") boot)) ≠ ∅
  ∧ ∃ data s',
      flush_input_stat true (exec (update_input_stat "press") boot) = (Ok (), s')
      ∧ written s' = written (exec (update_input_stat "press") boot)
                     ++ [("input", InputData data)]
      ∧ data !! "stats"
        = Some (JStats (input_stat (self (exec (update_input_stat "press") boot))))
      ∧ (∀ k v, data !! k = Some v → k = "timeout" ∨ k = "stats" ∨ k = "interval")
      ∧ input_stat (self s') = ∅
      ∧ (∀ timeout', flush_input_stat timeout' s' = (Ok (), s')).
Proof.
  assert (input_stat (self (exec (update_input_stat "press") boot)) ≠ ∅) as Hne.
  { intros Heq. apply (f_equal (λ m : gmap string Z, m !! "press")) in Heq.
    vm_compute in Heq. discriminate. }
  split; [exact Hne|].
  exact (flush_snapshots_and_resets true _ Hne).
Defined.


Lemma run_conserves_counts_witness :
  (run press_then_focus boot).1 = Ok ()
  ∧ (total_reported "press" (written (exec (run press_then_focus) boot))
     + pending "press" (exec (run press_then_focus) boot)
     = callbacks "press" press_then_focus)%Z.
Proof.
  split; [reflexivity|].
  apply (run_conserves_counts "press" press_then_focus). reflexivity.
Defined.

Lemma reported_pid_announced_before_witness :
  written (exec (run press_then_focus) boot) !! 2
  = Some ("active-window", WindowData (Some editor_details))
  ∧ ∃ v, ("new-pid", NewPidData 100 v)
         ∈ take 2 (written (exec (run press_then_focus) boot)).
Proof.
  split; [reflexivity|].
  apply (reported_pid_announced_before press_then_focus 2 editor_details 100);
    [reflexivity|reflexivity|lia].
Defined.

Lemma subscription_follows_focus_witness :
  (run focus_moves (started (mkWindow 1))).1 = Ok ()
  ∧ ∀ win,
      mask_of (xserver (exec (run focus_moves) (started (mkWindow 1)))) win
      = PropertyChangeMask
      ↔ win = mkWindow 1
        ∨ last_window (self (exec (run focus_moves) (started (mkWindow 1)))) = Some win.
Proof.
  split; [reflexivity|].
  apply (subscription_follows_focus (mkWindow 1) focus_moves); [reflexivity|].
  intros w Hin.
  apply elem_of_cons in Hin as [Heq|Hin];
    [injection Heq as ->; split; [done|discriminate]|].
  apply elem_of_cons in Hin as [Heq|Hin]; [discriminate|].
  apply elem_of_cons in Hin as [Heq|Hin];
    [injection Heq as ->; split; [done|discriminate]|].
  by apply elem_of_nil in Hin.
Defined.

Lemma resolved_metadata_well_formed_witness :
  ∃ h, Some (mkWindow 7) = Some h
       ∧ md_wid editor_details = win_id h
       ∧ getWmPid editor h = Ok (md_pid editor_details)
       ∧ isWmFullscreen editor h = Ok (md_fullscreen editor_details)
       ∧ md_name editor_details ≠ Some ""
       ∧ Forall (λ c : option string, ∃ s, c = Some s ∧ s ≠ "")
           (md_class editor_details).
Proof.
  apply (resolved_metadata_well_formed editor (Some (mkWindow 7)) empty_globals
           {| cache := [(100%Z, ["vim"])];
              stdout := [("new-pid", NewPidData 100 ["vim"])] |}).
  reflexivity.
Defined.

Lemma resolver_writes_only_own_new_pid_witness :
  (window_options no_pid (Some (mkWindow 7)) empty_globals).2 = empty_globals.
Proof.
  apply (proj1 (resolver_writes_only_own_new_pid no_pid (Some (mkWindow 7))
                  empty_globals)).
  intros h p _ Hpid. discriminate.
Defined.

Lemma undecodable_name_ends_run_witness :
  window_options latin1_title (Some (mkWindow 7)) (globals boot)
  = (Raise UnicodeDecodeError, globals boot)
  ∧ (∀ xs, (run (FocusCheck latin1_title :: xs) boot).1 = Raise UnicodeDecodeError).
Proof.
  apply (undecodable_name_ends_run latin1_title (mkWindow 7) boot None
           (globals boot) [xe9]); [reflexivity..|discriminate|reflexivity].
Defined.

Lemma run_ends_only_in_resolver_witness :
  (run [Callback "press"; FocusCheck stale_pid] boot).1 = Raise NoSuchProcess
  ∧ NoSuchProcess ≠ BadWindow
  ∧ ∃ w win, FocusCheck w ∈ [Callback "press"; FocusCheck stale_pid]
             ∧ getActiveWindow w = Some win.
Proof.
  split; [reflexivity|].
  apply (run_ends_only_in_resolver [Callback "press"; FocusCheck stale_pid] boot).
  reflexivity.
Defined.

Lemma recently_used_survives_witness :
  (cmdline_by_pid editor 1 (resolve_all calls_256 empty_globals)).1 = Ok ["vim"]
  ∧ 1%Z ∈ keys (cache (resolve_all [(editor, 257%Z)]
                         (exec (cmdline_by_pid editor 1)
                            (resolve_all calls_256 empty_globals)))).
Proof.
  split; [reflexivity|].
  apply (recently_used_survives editor 1 (resolve_all calls_256 empty_globals) ["vim"]).
  - apply resolve_all_cache_ok. split; [constructor|]. unfold maxsize. simpl. lia.
  - reflexivity.
  - repeat constructor. apply not_elem_of_nil.
  - intros c Hc. apply elem_of_cons in Hc as [->|Hc]; [|by apply elem_of_nil in Hc].
    split; [discriminate|].
    refine (bool_decide_unpack _ _). vm_compute. exact I.
  - intros c Hc. apply elem_of_cons in Hc as [->|Hc]; [|by apply elem_of_nil in Hc].
    by exists ["vim"].
  - unfold maxsize. simpl. lia.
Defined.

Lemma no_class_iff_only_nul_witness :
  getProperty_WM_CLASS nul_class (mkWindow 7) = Ok (Some [x00; x00])
  ∧ (getWmClass nul_class (mkWindow 7) = Ok []
     ↔ Forall (λ b, b = x00) (default [] (Some [x00; x00]))).
Proof.
  split; [reflexivity|].
  apply (no_class_iff_only_nul nul_class (mkWindow 7) (Some [x00; x00])).
  reflexivity.
Defined.

(** ** The test of the bank before the lock *)



